(** * BufferHubService: token hand-off and client bookkeeping

    A shallow embedding of [services/bufferhub/BufferHubService.cpp]
    (namespace android::frameworks::bufferhub::V1_0::implementation).

    The service owns two tables, [mTokenMap] (token -> weak pointer to the
    client that minted it) and [mClientSet] (weak pointers to every client
    handed out), and the random engine the tokens are drawn from.  The
    [BufferClient] and [BufferNode] objects the tables point to live on the
    process heap; they are modelled by two stores indexed by object identity.

    Every mutex of the source guards one critical section that is run here as
    one sequential step; [_hidl_cb(status, client, traits)] becomes the value
    the operation returns. *)

From stdpp Require Import gmap list functions sorting.

Local Open Scope Z_scope.

(** ** Fixed-width integers *)

(** Conversion to [uint32_t]: reduction modulo 2^32. *)
Definition to_uint32 (z : Z) : Z := z mod 2 ^ 32.

(** Conversion to (32-bit, two's complement) [int]. *)
Definition to_int32 (z : Z) : Z :=
  let u := z mod 2 ^ 32 in
  if decide (u < 2 ^ 31) then u else u - 2 ^ 32.

(** ** Handles, descriptors, replies *)

(** [native_handle_t] of <cutils/native_handle.h>: [numFds] file descriptors
    followed by [numInts] integers, all stored in the [int data[]] tail. *)
Record native_handle_t := mkNativeHandle {
  numFds : Z;
  numInts : Z;
  data : list Z
}.

(** [hidl_handle] wraps a possibly null [native_handle_t*];
    [getNativeHandle()] is the wrapped pointer. *)
Definition hidl_handle : Type := option native_handle_t.

(** [native_handle_create(numFds, numInts)] (libcutils): a handle with room
    for [numFds + numInts] entries. *)
Definition native_handle_create (nFds nInts : Z) : native_handle_t :=
  {| numFds := nFds; numInts := nInts;
     data := replicate (Z.to_nat (nFds + nInts)) 0 |}.

(** [h->data[0]] read as an [int]. *)
Definition data0 (h : native_handle_t) : Z := nth 0 (data h) 0.

(** [h->data[0] = v]: the stored [int] is [v] converted. *)
Definition set_data0 (h : native_handle_t) (v : Z) : native_handle_t :=
  {| numFds := numFds h; numInts := numInts h;
     data := <[0%nat := to_int32 v]> (data h) |}.

Inductive BufferHubStatus :=
  | NO_ERROR
  | ALLOCATION_FAILED
  | INVALID_TOKEN
  | BUFFER_FREED
  | MAX_CLIENT.

#[global] Instance BufferHubStatus_eq_dec : EqDecision BufferHubStatus.
Proof. solve_decision. Defined.

(** [AHardwareBuffer_Desc] of <android/hardware_buffer.h>.
    [HardwareBufferDescription] is its HIDL image of the same size; the two
    [memcpy]s between them copy the object representation, so both types are
    this one record and the copy is the identity. *)
Record AHardwareBuffer_Desc := mkDesc {
  width : Z;
  height : Z;
  layers : Z;
  format : Z;
  usage : Z;
  stride : Z;
  rfu0 : Z;
  rfu1 : Z
}.

Definition HardwareBufferDescription : Type := AHardwareBuffer_Desc.

Record BufferTraits := mkTraits {
  bufferDesc : HardwareBufferDescription;
  bufferHandle : hidl_handle;
  bufferInfo : hidl_handle
}.

(** The value-initialised [BufferTraits] written [{}] in the source. *)
Definition empty_traits : BufferTraits :=
  {| bufferDesc := mkDesc 0 0 0 0 0 0 0 0; bufferHandle := None; bufferInfo := None |}.

(** Object identities (addresses) of heap objects. *)
Definition ptr : Type := positive.

(** What [_hidl_cb] of allocateBuffer and importBuffer receives. *)
Record Reply := mkReply {
  status : BufferHubStatus;
  bufferClient : option ptr;
  bufferTraits : BufferTraits
}.

Definition failed (s : BufferHubStatus) : Reply :=
  {| status := s; bufferClient := None; bufferTraits := empty_traits |}.

(** ** BufferNode and BufferClient *)

(** Modelled from the spec: the [BufferNode] class (BufferNode.h/.cpp are not
    among the verified sources).  Section 3 gives it an immutable [id], an
    immutable descriptor, and a shared metadata header holding the
    active-clients bit mask; debug() also reads [buffer_state] and
    [queue_index] from that header. *)
Record BufferNode := mkNode {
  node_id : Z;
  buffer_handle : hidl_handle;
  buffer_desc : AHardwareBuffer_Desc;
  metadata_valid : bool;
  active_clients_bit_mask : Z;
  buffer_state : Z;
  queue_index : Z
}.

(** What the platform allocator and the id generator answer during one
    allocateBuffer call: the id from [BufferHubIdGenerator::getId()], the
    allocated handle (null on failure), the stride chosen by the allocator
    and whether the metadata region could be set up. *)
Record AllocEnv := mkEnv {
  getId : Z;
  alloc_handle : hidl_handle;
  alloc_stride : Z;
  alloc_metadata : bool
}.

(** Modelled from the spec: the [BufferNode] constructor (section 4.2):
    invokes the Allocator; the descriptor is made of the five values passed
    in; on success the bit mask has exactly bit 0 set. *)
Definition BufferNode_new (env : AllocEnv)
    (w h l f u : Z) (userMetadataSize : Z) (id : Z) : BufferNode :=
  {| node_id := id;
     buffer_handle := alloc_handle env;
     buffer_desc := {| width := w; height := h; layers := l; format := f;
                       usage := u; stride := alloc_stride env;
                       rfu0 := 0; rfu1 := 0 |};
     metadata_valid := alloc_metadata env;
     active_clients_bit_mask := 1;
     buffer_state := 0;
     queue_index := 0 |}.

(** Modelled from the spec: [BufferNode::IsValid()] (section 4.2): fails on a
    null handle or allocator-reported invalidity. *)
Definition IsValid (n : BufferNode) : bool :=
  bool_decide (is_Some (buffer_handle n)) && metadata_valid n.

Definition set_mask (n : BufferNode) (m : Z) : BufferNode :=
  {| node_id := node_id n; buffer_handle := buffer_handle n;
     buffer_desc := buffer_desc n; metadata_valid := metadata_valid n;
     active_clients_bit_mask := m;
     buffer_state := buffer_state n; queue_index := queue_index n |}.

(** A [BufferClient] holds a [std::shared_ptr<BufferNode>]; the copy
    constructor used by importBuffer shares it. *)
Record BufferClient := mkClient {
  mBufferNode : ptr
}.

(** ** Process state *)

(** The service members ([mTokenMap], [mClientSet], [mTokenEngine]) and the
    heap around them.

    - A [wp<BufferClient>] is the identity of its referent; [promote()]
      succeeds exactly while the referent is in [clientHeap].  Identities
      are handed out by a counter and never reused.
    - A [std::shared_ptr<BufferNode>] is the identity of the node; a node is
      kept alive by its clients, so dereferencing is total.
    - [mTokenEngine] (a std::mt19937) is represented by the sequence of
      values it is going to produce. *)
Record World := mkWorld {
  mTokenMap : gmap Z ptr;
  mClientSet : gset ptr;
  mTokenEngine : nat → Z;
  clientHeap : gmap ptr BufferClient;
  clientNext : ptr;
  nodeHeap : ptr → BufferNode;
  nodeNext : ptr
}.

Definition set_mTokenMap (w : World) (m : gmap Z ptr) : World :=
  mkWorld m (mClientSet w) (mTokenEngine w)
          (clientHeap w) (clientNext w) (nodeHeap w) (nodeNext w).

Definition set_mClientSet (w : World) (s : gset ptr) : World :=
  mkWorld (mTokenMap w) s (mTokenEngine w)
          (clientHeap w) (clientNext w) (nodeHeap w) (nodeNext w).

Definition set_mTokenEngine (w : World) (g : nat → Z) : World :=
  mkWorld (mTokenMap w) (mClientSet w) g
          (clientHeap w) (clientNext w) (nodeHeap w) (nodeNext w).

(** [wp::promote()]. *)
Definition promote (w : World) (p : ptr) : option BufferClient :=
  clientHeap w !! p.

(** [new BufferClient(...)]: a live object under a fresh identity. *)
Definition new_client (c : BufferClient) (w : World) : ptr * World :=
  (clientNext w,
   mkWorld (mTokenMap w) (mClientSet w) (mTokenEngine w)
           (<[clientNext w := c]> (clientHeap w)) (Pos.succ (clientNext w))
           (nodeHeap w) (nodeNext w)).

(** The last strong reference to a client is dropped. *)
Definition delete_client (p : ptr) (w : World) : World :=
  mkWorld (mTokenMap w) (mClientSet w) (mTokenEngine w)
          (delete p (clientHeap w)) (clientNext w)
          (nodeHeap w) (nodeNext w).

(** [std::make_shared<BufferNode>(...)] once it is kept. *)
Definition new_node (n : BufferNode) (w : World) : ptr * World :=
  (nodeNext w,
   mkWorld (mTokenMap w) (mClientSet w) (mTokenEngine w)
           (clientHeap w) (clientNext w)
           (<[nodeNext w := n]> (nodeHeap w)) (Pos.succ (nodeNext w))).

Definition store_node (p : ptr) (n : BufferNode) (w : World) : World :=
  mkWorld (mTokenMap w) (mClientSet w) (mTokenEngine w)
          (clientHeap w) (clientNext w)
          (<[p := n]> (nodeHeap w)) (nodeNext w).

(** [std::map::emplace]: inserts unless the key is already present. *)
Definition emplace {V} (k : Z) (v : V) (m : gmap Z V) : gmap Z V :=
  match m !! k with
  | Some _ => m
  | None => <[k := v]> m
  end.

(** ** The service operations *)

(** *** allocateBuffer *)

(** [std::make_shared] never yields a null pointer, so of the test
    [node == nullptr || !node->IsValid()] only the second half can fire.
    A node that fails the test dies with the call and leaves no trace. *)
Definition allocateBuffer (env : AllocEnv)
    (description : HardwareBufferDescription) (userMetadataSize : Z)
    (w : World) : Reply * World :=
  let desc : AHardwareBuffer_Desc := description in
  let node := BufferNode_new env (width desc) (height desc) (layers desc)
                (format desc) (usage desc) userMetadataSize (getId env) in
  if negb (IsValid node) then (failed ALLOCATION_FAILED, w)
  else
    let '(nodep, w) := new_node node w in
    let '(client, w) := new_client (mkClient nodep) w in
    let w := set_mClientSet w ({[client]} ∪ mClientSet w) in
    let bufferTraits := {| bufferDesc := description;
                           bufferHandle := buffer_handle node;
                           bufferInfo := None |} in
    (mkReply NO_ERROR (Some client) bufferTraits, w).

(** *** importBuffer *)

(** The format test on a non-null token carrier:
    [tokenHandle->numFds != 0 || tokenHandle->numInts != 1]. *)
Definition wrong_format (h : native_handle_t) : bool :=
  bool_decide (numFds h ≠ 0) || bool_decide (numInts h ≠ 1).

(** The whole guard of importBuffer, null handle included. *)
Definition carrier_malformed (tokenHandle : hidl_handle) : bool :=
  match tokenHandle with
  | None => true
  | Some h => wrong_format h
  end.

Section ImportBuffer.

(** Modelled from the spec: [BufferNode::AddNewActiveClientsBitToMask()]
    (section 4.2, addConsumerSlot; BufferNode.cpp is not among the verified
    sources).  It works on the active-clients bit mask alone: from the
    current mask it yields the value returned to importBuffer (0 when no
    slot is left) and the mask it leaves behind.  The operations below are
    defined for any such function. *)
Variable AddNewActiveClientsBitToMask : Z → Z * Z.

Definition importBuffer (tokenHandle : hidl_handle) (w : World)
    : Reply * World :=
  match tokenHandle with
  | None => (failed INVALID_TOKEN, w)
  | Some h =>
    if wrong_format h then (failed INVALID_TOKEN, w)
    else
      let token := to_uint32 (data0 h) in
      match mTokenMap w !! token with
      | None => (failed INVALID_TOKEN, w)
      | Some originClientWp =>
        let w := set_mTokenMap w (delete token (mTokenMap w)) in
        match promote w originClientWp with
        | None => (failed BUFFER_FREED, w)
        | Some originClient =>
          let '(client, w) := new_client (mkClient (mBufferNode originClient)) w in
          let nodep := mBufferNode originClient in
          let '(clientStateMask, mask) :=
            AddNewActiveClientsBitToMask
              (active_clients_bit_mask (nodeHeap w nodep)) in
          let w := store_node nodep (set_mask (nodeHeap w nodep) mask) w in
          if bool_decide (clientStateMask = 0)
          then (failed MAX_CLIENT, delete_client client w)
          else
            let w := set_mClientSet w ({[client]} ∪ mClientSet w) in
            let node := nodeHeap w nodep in
            let bufferTraits := {| bufferDesc := buffer_desc node;
                                   bufferHandle := buffer_handle node;
                                   bufferInfo := None |} in
            (mkReply NO_ERROR (Some client) bufferTraits, w)
        end
      end
  end.

End ImportBuffer.

(** Modelled from the spec: a slot allocator as section 4.2 words it, used to
    run importBuffer on concrete states.  It finds the lowest unset bit among
    the 32 of the mask, sets it and returns the new mask; with every bit
    taken it returns the sentinel 0 and leaves the mask alone. *)
Fixpoint lowest_unset_bit (n : nat) (i : Z) (mask : Z) : option Z :=
  match n with
  | O => None
  | S n' => if Z.testbit mask i then lowest_unset_bit n' (i + 1) mask
            else Some i
  end.

Definition addConsumerSlot (mask : Z) : Z * Z :=
  match lowest_unset_bit 32 0 mask with
  | Some i => let m := Z.lor mask (Z.shiftl 1 i) in (m, m)
  | None => (0, mask)
  end.

(** *** registerToken *)

(** One call of [mTokenEngine()]: the next value and the advanced engine. *)
Definition engine_next (g : nat → Z) : Z * (nat → Z) :=
  (g 0%nat, λ n, g (S n)).

(** The loop [do { token = mTokenEngine(); } while (mTokenMap.find(token)
    != mTokenMap.end())], run for at most [fuel] draws. *)
Fixpoint draw_token (fuel : nat) (m : gmap Z ptr) (g : nat → Z)
    : option (Z * (nat → Z)) :=
  match fuel with
  | O => None
  | S fuel' =>
    let '(r, g') := engine_next g in
    let token := to_uint32 r in
    if decide (is_Some (m !! token)) then draw_token fuel' m g'
    else Some (token, g')
  end.

Definition registerToken (fuel : nat) (client : ptr) (w : World)
    : option (hidl_handle * World) :=
  match draw_token fuel (mTokenMap w) (mTokenEngine w) with
  | None => None
  | Some (token, g) =>
    let w := set_mTokenEngine w g in
    let handle := set_data0 (native_handle_create 0 1) token in
    let returnToken : hidl_handle := Some handle in
    Some (returnToken, set_mTokenMap w (emplace token client (mTokenMap w)))
  end.

(** *** onClientClosed and removeTokenByClient *)

(** The scan of removeTokenByClient: every entry is visited once and erased
    when its weak pointer compares equal to [client]. *)
Definition erase_if_client (client : ptr) (m : gmap Z ptr) (kv : Z * ptr)
    : gmap Z ptr :=
  if decide (kv.2 = client) then delete kv.1 m else m.

Definition removeTokenByClient (client : ptr) (w : World) : World :=
  set_mTokenMap w
    (foldl (erase_if_client client) (mTokenMap w) (map_to_list (mTokenMap w))).

(** [std::find] on the client set followed by [erase] of the hit. *)
Definition onClientClosed (client : ptr) (w : World) : World :=
  let w := removeTokenByClient client w in
  if decide (client ∈ mClientSet w)
  then set_mClientSet w (mClientSet w ∖ {[client]})
  else w.

(** *** debug *)

(** [HAL_PIXEL_FORMAT_BLOB] of <system/graphics-base.h>. *)
Definition HAL_PIXEL_FORMAT_BLOB : Z := 33.

(** The Geometry column: ["<width> B"] for blobs, ["WxHxL"] otherwise. *)
Inductive Geometry :=
  | SizeInBytes (w : Z)
  | Dimensions (w h l : Z).

(** One line of the "Active Buffers" table, as the values streamed into it
    (the text layout, [setw] and hex padding, is not part of the model). *)
Record ActiveBufferRow := mkRow {
  row_Id : Z;
  row_Clients : Z;
  row_Geometry : Geometry;
  row_Format : Z;
  row_Usage : Z;
  row_State : Z;
  row_Index : Z
}.

(** The key under which debug() files a node in its [std::map<int, ...>]:
    [node->id()] converted to [int]. *)
Definition buffer_key (n : BufferNode) : Z := to_int32 (node_id n).

(** Body of the loop over [mClientSet]: an expired weak pointer is passed
    over; a live client bumps the ([uint32_t]) count of its buffer or opens
    a new entry holding its node and the count 1. *)
Definition count_client (w : World) (clientCount : gmap Z (ptr * Z))
    (wp : ptr) : gmap Z (ptr * Z) :=
  match promote w wp with
  | Some client =>
    let node := mBufferNode client in
    let k := buffer_key (nodeHeap w node) in
    match clientCount !! k with
    | Some (first, n) => <[k := (first, to_uint32 (n + 1))]> clientCount
    | None => emplace k (node, 1) clientCount
    end
  | None => clientCount
  end.

(** The loop visits every weak pointer of the set once, in the order of the
    set; [elements] fixes one such order. *)
Definition clientCount (w : World) : gmap Z (ptr * Z) :=
  foldl (count_client w) ∅ (elements (mClientSet w)).

(** [std::map] iterates in ascending key order. *)
Definition key_le {V} (a b : Z * V) : Prop := a.1 ≤ b.1.

#[global] Instance key_le_dec {V} (a b : Z * V) : Decision (key_le a b).
Proof. unfold key_le. apply _. Defined.

Definition in_key_order {V} (m : gmap Z V) : list (Z * V) :=
  merge_sort key_le (map_to_list m).

Definition active_row (w : World) (entry : Z * (ptr * Z)) : ActiveBufferRow :=
  let node := nodeHeap w entry.2.1 in
  let clientCount := entry.2.2 in
  let desc := buffer_desc node in
  {| row_Id := node_id node;
     row_Clients := clientCount;
     row_Geometry := if decide (format desc = HAL_PIXEL_FORMAT_BLOB)
                     then SizeInBytes (width desc)
                     else Dimensions (width desc) (height desc) (layers desc);
     row_Format := format desc;
     row_Usage := usage desc;
     row_State := buffer_state node;
     row_Index := queue_index node |}.

Definition active_buffers (w : World) : list ActiveBufferRow :=
  active_row w <$> in_key_order (clientCount w).

(** Body of the loop over [mTokenMap]. *)
Definition count_token (w : World) (tokenCount : gmap Z Z) (wp : ptr)
    : gmap Z Z :=
  match promote w wp with
  | Some client =>
    let k := buffer_key (nodeHeap w (mBufferNode client)) in
    match tokenCount !! k with
    | Some n => <[k := to_uint32 (n + 1)]> tokenCount
    | None => emplace k 1 tokenCount
    end
  | None => tokenCount
  end.

Definition tokenCount (w : World) : gmap Z Z :=
  foldl (count_token w) ∅ ((map_to_list (mTokenMap w)).*2).

Record Report := mkReport {
  args_note : bool;
  activeBuffers : list ActiveBufferRow;
  unusedTokens : list (Z * Z)
}.

(** debug() writes nothing without a file descriptor to write to; otherwise
    it prints the note about ignored arguments, the two tables, and leaves
    the service as it was. *)
Definition debug (fd : hidl_handle) (nargs : nat) (w : World) : option Report :=
  match fd with
  | None => None
  | Some h =>
    if decide (numFds h < 1) then None
    else Some {| args_note := bool_decide (nargs ≠ 0%nat);
                 activeBuffers := active_buffers w;
                 unusedTokens := in_key_order (tokenCount w) |}
  end.

(** ** Concrete states, used to run the operations *)

Definition null_node : BufferNode :=
  mkNode 0 None (mkDesc 0 0 0 0 0 0 0 0) false 0 0 0.

(** A freshly started service: empty tables, and a token engine that
    produces 2^32 + 5, 5, 6, 7, ... *)
Definition engine0 (n : nat) : Z :=
  match n with
  | O => 2 ^ 32 + 5
  | S k => 5 + Z.of_nat k
  end.

Definition world0 : World :=
  mkWorld ∅ ∅ engine0 ∅ 1%positive (λ _, null_node) 1%positive.

Definition env_ok : AllocEnv :=
  mkEnv 1 (Some (mkNativeHandle 0 0 [])) 64 true.

Definition env_invalid : AllocEnv :=
  mkEnv 1 None 0 true.

(** 64x64x1, RGBA_8888, CPU_READ_RARELY; stride and reserved words as a
    caller may leave them. *)
Definition desc64 : HardwareBufferDescription :=
  mkDesc 64 64 1 1 2 99 7 7.

(** allocate, then mint a token for the returned client. *)
Definition world_alloc : World := (allocateBuffer env_ok desc64 0 world0).2.

Definition world_minted : World :=
  match registerToken 1 1%positive world_alloc with
  | Some (_, w) => w
  | None => world_alloc
  end.

(** The carrier of token 5, and two malformed ones. *)
Definition handle5 : native_handle_t := mkNativeHandle 0 1 [5].

Definition token5 : hidl_handle := Some handle5.

Definition token_with_fd : hidl_handle := Some (mkNativeHandle 1 1 [3; 5]).

(** The same state after the minting client has been destroyed without
    being closed, and with the buffer's slots used up. *)
Definition world_orphan : World := delete_client 1%positive world_minted.

Definition world_full : World :=
  store_node 1%positive (set_mask (nodeHeap world_minted 1%positive) (2 ^ 32 - 1))
             world_minted.

(** The identity of the buffer a weak pointer of the client set stands for,
    if it can still be promoted: the key debug() counts it under. *)
Definition client_key (w : World) (p : ptr) : option Z :=
  match promote w p with
  | Some client => Some (buffer_key (nodeHeap w (mBufferNode client)))
  | None => None
  end.

(** The registered clients that are alive and belong to the buffer with
    key [k]. *)
Definition live_clients (w : World) (k : Z) : list ptr :=
  filter (λ p, client_key w p = Some k) (elements (mClientSet w)).

(** The engine after [k] draws. *)
Definition engine_skip (k : nat) (g : nat → Z) : nat → Z :=
  λ n, g (k + n)%nat.

(** The first [k] candidates of the engine collide with keys of [m], the
    next one is free. *)
Definition first_free (m : gmap Z ptr) (g : nat → Z) (k : nat) : Prop :=
  (∀ i, (i < k)%nat → is_Some (m !! to_uint32 (g i))) ∧
  m !! to_uint32 (g k) = None.

(** What the loop of debug() over the client set maintains: after the
    weak pointers [seen] have been visited, a buffer key has an entry exactly
    when one of them is a live client of that buffer; the entry holds a node
    with that key and the number of such clients, as a [uint32_t]. *)
Definition counted (w : World) (seen : list ptr) (acc : gmap Z (ptr * Z))
    : Prop :=
  ∀ k,
    let live := filter (λ p, client_key w p = Some k) seen in
    match acc !! k with
    | Some (first, n) =>
      buffer_key (nodeHeap w first) = k ∧
      (0 < length live)%nat ∧
      n = to_uint32 (Z.of_nat (length live))
    | None => live = []
    end.

(** Two clients on one buffer, as importing token 5 leaves them; and a
    handle with a file descriptor for debug() to write to. *)
Definition world_shared : World :=
  (importBuffer addConsumerSlot token5 world_minted).2.

Definition fd_out : hidl_handle := Some (mkNativeHandle 1 0 [3]).

Definition row_shared : ActiveBufferRow :=
  mkRow 1 2 (Dimensions 64 64 1) 1 2 0 0.

(** The weak pointers stored in the token map, one per outstanding token,
    that are alive and belong to the buffer with key [k]. *)
Definition live_tokens (w : World) (k : Z) : list ptr :=
  filter (λ p, client_key w p = Some k) ((map_to_list (mTokenMap w)).*2).

(** What the loop of debug() over the token map maintains, in the manner of
    [counted]. *)
Definition counted_tokens (w : World) (seen : list ptr) (acc : gmap Z Z)
    : Prop :=
  ∀ k,
    let live := filter (λ p, client_key w p = Some k) seen in
    match acc !! k with
    | Some n => (0 < length live)%nat ∧ n = to_uint32 (Z.of_nat (length live))
    | None => live = []
    end.

(** The keys of the rows of the Active Buffers table, top to bottom. *)
Definition row_keys (rows : list ActiveBufferRow) : list Z :=
  (λ row, to_int32 (row_Id row)) <$> rows.

(** A second token minted by client 1: the engine first repeats 5, which is
    outstanding, and then yields 6. *)
Definition handle6 : native_handle_t := mkNativeHandle 0 1 [6].

Definition token6 : hidl_handle := Some handle6.

Definition world_two_tokens : World :=
  match registerToken 2 1%positive world_minted with
  | Some (_, w) => w
  | None => world_minted
  end.

(** A second buffer, with id 2, allocated beside the shared one. *)
Definition env_second : AllocEnv :=
  mkEnv 2 (Some (mkNativeHandle 0 0 [])) 64 true.

Definition world_two_buffers : World :=
  (allocateBuffer env_second desc64 0 world_shared).2.

Definition rows_two_buffers : list ActiveBufferRow :=
  [mkRow 1 2 (Dimensions 64 64 1) 1 2 0 0;
   mkRow 2 1 (Dimensions 64 64 1) 1 2 0 0].

(** * Properties *)

(** ** Integer conversions *)

Lemma to_uint32_range z : 0 ≤ to_uint32 z < 2 ^ 32.
Proof. unfold to_uint32. apply Z.mod_pos_bound. lia. Qed.

Lemma to_uint32_idem z : to_uint32 (to_uint32 z) = to_uint32 z.
Proof. unfold to_uint32. apply Zmod_mod. Qed.

Lemma to_uint32_small z : 0 ≤ z < 2 ^ 32 → to_uint32 z = z.
Proof. intros Hz. unfold to_uint32. apply Z.mod_small. lia. Qed.

Lemma to_uint32_to_int32 z : to_uint32 (to_int32 z) = to_uint32 z.
Proof.
  unfold to_int32, to_uint32. case_decide as Hlt.
  - apply Zmod_mod.
  - replace (z mod 2 ^ 32 - 2 ^ 32) with (z mod 2 ^ 32 + (-1) * 2 ^ 32) by lia.
    rewrite Z_mod_plus_full. apply Zmod_mod.
Qed.

Lemma to_int32_inj a b :
  0 ≤ a < 2 ^ 32 → 0 ≤ b < 2 ^ 32 → to_int32 a = to_int32 b → a = b.
Proof.
  intros Ha Hb Heq.
  rewrite <- (to_uint32_small a), <- (to_uint32_small b) by lia.
  rewrite <- (to_uint32_to_int32 a), <- (to_uint32_to_int32 b).
  by rewrite Heq.
Qed.

Lemma to_uint32_succ z : to_uint32 (to_uint32 z + 1) = to_uint32 (z + 1).
Proof. unfold to_uint32. apply Zplus_mod_idemp_l. Qed.

(** ** Token carriers *)

Lemma carrier_malformed_spec (tokenHandle : hidl_handle) :
  carrier_malformed tokenHandle = true ↔
  tokenHandle = None ∨
  ∃ h, tokenHandle = Some h ∧ (numFds h ≠ 0 ∨ numInts h ≠ 1).
Proof.
  destruct tokenHandle as [h|]; simpl; unfold wrong_format.
  - rewrite orb_true_iff, !bool_decide_eq_true. split.
    + intros H. right. by exists h.
    + intros [?|(h' & [= <-] & H)]; done.
  - split; [by left | done].
Qed.

Lemma wrong_format_false h :
  wrong_format h = false ↔ numFds h = 0 ∧ numInts h = 1.
Proof.
  unfold wrong_format. rewrite orb_false_iff, !bool_decide_eq_false.
  split; intros [H1 H2]; split;
    first [by apply dec_stable | by intros ?].
Qed.

Section ImportFacts.

Variable addSlot : Z → Z * Z.

Lemma importBuffer_malformed tokenHandle w :
  carrier_malformed tokenHandle = true →
  importBuffer addSlot tokenHandle w = (failed INVALID_TOKEN, w).
Proof.
  destruct tokenHandle as [h|]; simpl; [|done].
  by intros ->.
Qed.

Lemma importBuffer_absent h w :
  mTokenMap w !! to_uint32 (data0 h) = None →
  importBuffer addSlot (Some h) w = (failed INVALID_TOKEN, w).
Proof.
  intros Hnone. simpl. destruct (wrong_format h); [done|].
  by rewrite Hnone.
Qed.

(** Whatever branch importBuffer leaves through after the lookup, the
    token map it leaves behind is the old one without the token. *)
Lemma importBuffer_erases h w p :
  wrong_format h = false →
  mTokenMap w !! to_uint32 (data0 h) = Some p →
  mTokenMap (importBuffer addSlot (Some h) w).2
  = delete (to_uint32 (data0 h)) (mTokenMap w).
Proof.
  intros Hfmt Hp. simpl. rewrite Hfmt, Hp.
  destruct (promote _ p) as [origin|]; [|done].
  simpl. destruct (addSlot _) as [clientStateMask mask].
  by case_bool_decide.
Qed.

(** Once the token is found, INVALID_TOKEN is no longer a possible answer. *)
Lemma importBuffer_present h w p :
  wrong_format h = false →
  mTokenMap w !! to_uint32 (data0 h) = Some p →
  status (importBuffer addSlot (Some h) w).1 ≠ INVALID_TOKEN.
Proof.
  intros Hfmt Hp. simpl. rewrite Hfmt, Hp.
  destruct (promote _ p) as [origin|]; [|done].
  simpl. destruct (addSlot _) as [clientStateMask mask].
  by case_bool_decide.
Qed.

End ImportFacts.

(** ** importBuffer: the guard and the three failures *)

(** C3. A malformed token carrier (a null native handle, a non-zero count
    of file descriptors, or a count of integers other than one) makes
    importBuffer answer INVALID_TOKEN with no client and empty traits; the
    answer is the same whatever the token map holds, and the state, token
    map included, is returned as it was. *)
Theorem importBuffer_rejects_malformed_carrier
    (addSlot : Z → Z * Z) (tokenHandle : hidl_handle) (w : World) :
  (tokenHandle = None ∨
   ∃ h, tokenHandle = Some h ∧ (numFds h ≠ 0 ∨ numInts h ≠ 1)) →
  importBuffer addSlot tokenHandle w = (failed INVALID_TOKEN, w) ∧
  status (importBuffer addSlot tokenHandle w).1 = INVALID_TOKEN ∧
  bufferClient (importBuffer addSlot tokenHandle w).1 = None ∧
  mTokenMap (importBuffer addSlot tokenHandle w).2 = mTokenMap w.
Proof.
  intros Hbad%carrier_malformed_spec.
  by rewrite (importBuffer_malformed addSlot _ w Hbad).
Qed.

Lemma importBuffer_rejects_malformed_carrier_witness :
  (token_with_fd = None ∨
   ∃ h, token_with_fd = Some h ∧ (numFds h ≠ 0 ∨ numInts h ≠ 1)) ∧
  importBuffer addConsumerSlot token_with_fd world_minted
  = (failed INVALID_TOKEN, world_minted).
Proof.
  assert (Hbad : token_with_fd = None ∨
            ∃ h, token_with_fd = Some h ∧ (numFds h ≠ 0 ∨ numInts h ≠ 1)).
  { right. eexists. split; [reflexivity|]. left. simpl. lia. }
  split; [exact Hbad|].
  exact (proj1 (importBuffer_rejects_malformed_carrier
                  addConsumerSlot token_with_fd world_minted Hbad)).
Defined.

(** C1. A token that is in the token map is erased by the lookup of
    importBuffer: whichever way that call ends (success, BUFFER_FREED or
    MAX_CLIENT), the token map it leaves is the old one without the token,
    and a second importBuffer with the same carrier answers INVALID_TOKEN
    and changes nothing. *)
Theorem importBuffer_token_single_use
    (addSlot : Z → Z * Z) (h : native_handle_t) (w : World) (p : ptr) :
  wrong_format h = false →
  mTokenMap w !! to_uint32 (data0 h) = Some p →
  let w1 := (importBuffer addSlot (Some h) w).2 in
  mTokenMap w1 = delete (to_uint32 (data0 h)) (mTokenMap w) ∧
  importBuffer addSlot (Some h) w1 = (failed INVALID_TOKEN, w1).
Proof.
  intros Hfmt Hp w1.
  assert (Herase : mTokenMap w1 = delete (to_uint32 (data0 h)) (mTokenMap w))
    by (by eapply importBuffer_erases).
  split; [done|].
  apply importBuffer_absent. rewrite Herase. apply lookup_delete_eq.
Qed.

Lemma importBuffer_token_single_use_witness :
  wrong_format handle5 = false ∧
  mTokenMap world_minted !! to_uint32 (data0 handle5) = Some 1%positive ∧
  let w1 := (importBuffer addConsumerSlot (Some handle5) world_minted).2 in
  mTokenMap w1 = delete (to_uint32 (data0 handle5)) (mTokenMap world_minted) ∧
  importBuffer addConsumerSlot (Some handle5) w1 = (failed INVALID_TOKEN, w1).
Proof.
  assert (Hfmt : wrong_format handle5 = false) by reflexivity.
  assert (Hp : mTokenMap world_minted !! to_uint32 (data0 handle5)
               = Some 1%positive) by (vm_compute; reflexivity).
  split; [exact Hfmt|]. split; [exact Hp|].
  exact (importBuffer_token_single_use
           addConsumerSlot handle5 world_minted 1%positive Hfmt Hp).
Defined.

(** C7. When the token is in the map but the client it points to cannot be
    promoted any more, importBuffer answers BUFFER_FREED with no client, and
    the token has been erased all the same. *)
Theorem importBuffer_origin_gone
    (addSlot : Z → Z * Z) (h : native_handle_t) (w : World) (p : ptr) :
  wrong_format h = false →
  mTokenMap w !! to_uint32 (data0 h) = Some p →
  promote w p = None →
  let '(reply, w1) := importBuffer addSlot (Some h) w in
  reply = failed BUFFER_FREED ∧
  status reply = BUFFER_FREED ∧
  bufferClient reply = None ∧
  w1 = set_mTokenMap w (delete (to_uint32 (data0 h)) (mTokenMap w)) ∧
  mTokenMap w1 !! to_uint32 (data0 h) = None.
Proof.
  intros Hfmt Hp Hgone. simpl. rewrite Hfmt, Hp.
  unfold promote in *. simpl. rewrite Hgone. simpl.
  repeat split. apply lookup_delete_eq.
Qed.

Lemma importBuffer_origin_gone_witness :
  wrong_format handle5 = false ∧
  mTokenMap world_orphan !! to_uint32 (data0 handle5) = Some 1%positive ∧
  promote world_orphan 1%positive = None ∧
  status (importBuffer addConsumerSlot (Some handle5) world_orphan).1
  = BUFFER_FREED.
Proof.
  assert (Hfmt : wrong_format handle5 = false) by reflexivity.
  assert (Hp : mTokenMap world_orphan !! to_uint32 (data0 handle5)
               = Some 1%positive) by (vm_compute; reflexivity).
  assert (Hgone : promote world_orphan 1%positive = None)
    by (vm_compute; reflexivity).
  split; [exact Hfmt|]. split; [exact Hp|]. split; [exact Hgone|].
  pose proof (importBuffer_origin_gone
                addConsumerSlot handle5 world_orphan 1%positive Hfmt Hp Hgone)
    as Hthm.
  destruct (importBuffer addConsumerSlot (Some handle5) world_orphan)
    as [reply w1].
  exact (proj1 (proj2 Hthm)).
Defined.

(** C5. When the token resolves to a live client but the slot allocator
    returns 0 for the buffer it holds, importBuffer answers MAX_CLIENT with
    no client; the client set is the same as before (the copy made for the
    import is not registered and is gone again), and of the token map only
    the token looked up is missing: no other token is consumed. *)
Theorem importBuffer_no_slot_left
    (addSlot : Z → Z * Z) (h : native_handle_t) (w : World)
    (p : ptr) (origin : BufferClient) :
  wrong_format h = false →
  mTokenMap w !! to_uint32 (data0 h) = Some p →
  promote w p = Some origin →
  (addSlot (active_clients_bit_mask (nodeHeap w (mBufferNode origin)))).1 = 0 →
  let '(reply, w1) := importBuffer addSlot (Some h) w in
  reply = failed MAX_CLIENT ∧
  status reply = MAX_CLIENT ∧
  bufferClient reply = None ∧
  mClientSet w1 = mClientSet w ∧
  promote w1 (clientNext w) = None ∧
  mTokenMap w1 = delete (to_uint32 (data0 h)) (mTokenMap w) ∧
  (∀ t, t ≠ to_uint32 (data0 h) → mTokenMap w1 !! t = mTokenMap w !! t).
Proof.
  intros Hfmt Hp Hlive Hzero. simpl. rewrite Hfmt, Hp.
  unfold promote in *. simpl. rewrite Hlive. simpl.
  destruct (addSlot _) as [clientStateMask mask]. simpl in Hzero. subst.
  rewrite bool_decide_eq_true_2 by done. simpl.
  repeat split.
  - apply lookup_delete_eq.
  - intros t Ht. by apply lookup_delete_ne.
Qed.

Lemma importBuffer_no_slot_left_witness :
  wrong_format handle5 = false ∧
  mTokenMap world_full !! to_uint32 (data0 handle5) = Some 1%positive ∧
  promote world_full 1%positive = Some (mkClient 1%positive) ∧
  (addConsumerSlot
     (active_clients_bit_mask
        (nodeHeap world_full (mBufferNode (mkClient 1%positive))))).1 = 0 ∧
  status (importBuffer addConsumerSlot (Some handle5) world_full).1
  = MAX_CLIENT.
Proof.
  assert (Hfmt : wrong_format handle5 = false) by reflexivity.
  assert (Hp : mTokenMap world_full !! to_uint32 (data0 handle5)
               = Some 1%positive) by (vm_compute; reflexivity).
  assert (Hlive : promote world_full 1%positive = Some (mkClient 1%positive))
    by (vm_compute; reflexivity).
  assert (Hzero : (addConsumerSlot
                     (active_clients_bit_mask
                        (nodeHeap world_full
                           (mBufferNode (mkClient 1%positive))))).1 = 0)
    by (vm_compute; reflexivity).
  split; [exact Hfmt|]. split; [exact Hp|]. split; [exact Hlive|].
  split; [exact Hzero|].
  pose proof (importBuffer_no_slot_left addConsumerSlot handle5 world_full
                1%positive (mkClient 1%positive) Hfmt Hp Hlive Hzero) as Hthm.
  destruct (importBuffer addConsumerSlot (Some handle5) world_full)
    as [reply w1].
  exact (proj1 (proj2 Hthm)).
Defined.

(** ** allocateBuffer *)

Lemma IsValid_false n :
  IsValid n = false ↔ buffer_handle n = None ∨ metadata_valid n = false.
Proof.
  unfold IsValid. rewrite andb_false_iff, bool_decide_eq_false.
  rewrite <- eq_None_not_Some. done.
Qed.

(** C4. When the node built for the request is not valid (the allocator
    gave no handle or reported the node unusable), allocateBuffer answers
    ALLOCATION_FAILED with no client and empty traits, and the state (client
    set, token map, client heap) is exactly what it was. *)
Theorem allocateBuffer_allocation_failed
    (env : AllocEnv) (description : HardwareBufferDescription)
    (userMetadataSize : Z) (w : World) :
  IsValid (BufferNode_new env (width description) (height description)
             (layers description) (format description) (usage description)
             userMetadataSize (getId env)) = false →
  let '(reply, w1) := allocateBuffer env description userMetadataSize w in
  status reply = ALLOCATION_FAILED ∧
  bufferClient reply = None ∧
  bufferTraits reply = empty_traits ∧
  mClientSet w1 = mClientSet w ∧
  mTokenMap w1 = mTokenMap w ∧
  w1 = w.
Proof.
  intros Hinvalid. unfold allocateBuffer. rewrite Hinvalid. simpl. done.
Qed.

Lemma allocateBuffer_allocation_failed_witness :
  IsValid (BufferNode_new env_invalid (width desc64) (height desc64)
             (layers desc64) (format desc64) (usage desc64)
             0 (getId env_invalid)) = false ∧
  allocateBuffer env_invalid desc64 0 world_minted
  = (failed ALLOCATION_FAILED, world_minted).
Proof.
  assert (Hinvalid :
    IsValid (BufferNode_new env_invalid (width desc64) (height desc64)
               (layers desc64) (format desc64) (usage desc64)
               0 (getId env_invalid)) = false) by reflexivity.
  split; [exact Hinvalid|].
  pose proof (allocateBuffer_allocation_failed env_invalid desc64 0
                world_minted Hinvalid) as Hthm.
  destruct (allocateBuffer env_invalid desc64 0 world_minted) as [reply w1].
  destruct Hthm as (Hs & Hc & Ht & _ & _ & ->).
  destruct reply as [s c t]. simpl in *. by subst.
Defined.

(** ** registerToken *)

Lemma data0_fresh_handle token :
  data0 (set_data0 (native_handle_create 0 1) token) = to_int32 token.
Proof. reflexivity. Qed.

(** The loop stops at the first free candidate, provided it is given that
    many rounds. *)
Lemma draw_token_first_free m g k fuel :
  first_free m g k → (k < fuel)%nat →
  draw_token fuel m g = Some (to_uint32 (g k), engine_skip (S k) g).
Proof.
  revert g fuel. induction k as [|k IH]; intros g fuel [Hbusy Hfree] Hfuel.
  - destruct fuel as [|fuel]; [lia|]. simpl.
    rewrite decide_False; [done|].
    rewrite Hfree. by intros [? ?].
  - destruct fuel as [|fuel]; [lia|]. simpl.
    rewrite decide_True by (apply Hbusy; lia).
    rewrite (IH (λ n, g (S n)) fuel); [done| |lia].
    split; [|done]. intros i Hi. apply Hbusy. lia.
Qed.

(** Conversely, a loop that stops has stopped at the first free candidate. *)
Lemma draw_token_sound fuel m g token g' :
  draw_token fuel m g = Some (token, g') →
  ∃ k, (k < fuel)%nat ∧ first_free m g k ∧
       token = to_uint32 (g k) ∧ g' = engine_skip (S k) g.
Proof.
  revert g. induction fuel as [|fuel IH]; intros g; simpl; [done|].
  case_decide as Hbusy.
  - intros (k & Hk & [Hbefore Hfree] & -> & ->)%IH.
    exists (S k). split; [lia|]. split; [|done].
    split; [|done]. intros [|i] Hi; [done|]. apply Hbefore. lia.
  - intros [= <- <-]. exists 0%nat. split; [lia|]. split; [|done].
    split; [lia|]. by apply eq_None_not_Some.
Qed.

Lemma token_of_fresh_handle z :
  to_uint32 (data0 (set_data0 (native_handle_create 0 1) (to_uint32 z)))
  = to_uint32 z.
Proof.
  by rewrite data0_fresh_handle, to_uint32_to_int32, to_uint32_idem.
Qed.

Lemma emplace_fresh {V} k (v : V) m :
  m !! k = None → emplace k v m = <[k := v]> m.
Proof. intros H. unfold emplace. by rewrite H. Qed.

(** What a call of registerToken that found its token at draw [k] returns. *)
Lemma registerToken_at fuel client w k :
  first_free (mTokenMap w) (mTokenEngine w) k → (k < fuel)%nat →
  let token := to_uint32 (mTokenEngine w k) in
  registerToken fuel client w
  = Some (Some (set_data0 (native_handle_create 0 1) token),
          set_mTokenMap (set_mTokenEngine w (engine_skip (S k) (mTokenEngine w)))
                        (<[token := client]> (mTokenMap w))).
Proof.
  intros Hfree Hfuel token. unfold registerToken.
  rewrite (draw_token_first_free _ _ k) by done. simpl.
  rewrite emplace_fresh by apply Hfree. done.
Qed.

(** Conversely, a call that returns has found its token at some draw. *)
Lemma registerToken_sound fuel client w tokenHandle w1 :
  registerToken fuel client w = Some (tokenHandle, w1) →
  ∃ k, (k < fuel)%nat ∧
       first_free (mTokenMap w) (mTokenEngine w) k ∧
       let token := to_uint32 (mTokenEngine w k) in
       tokenHandle = Some (set_data0 (native_handle_create 0 1) token) ∧
       w1 = set_mTokenMap
              (set_mTokenEngine w (engine_skip (S k) (mTokenEngine w)))
              (<[token := client]> (mTokenMap w)).
Proof.
  intros Hreg. unfold registerToken in Hreg.
  destruct (draw_token _ _ _) as [[token g]|] eqn:Hdraw; [|done].
  apply draw_token_sound in Hdraw as (k & Hk & Hfree & -> & ->).
  cbn [set_mTokenEngine mTokenMap] in Hreg.
  rewrite emplace_fresh in Hreg by apply Hfree.
  injection Hreg as <- <-. by exists k.
Qed.

(** C6. Let the engine's first [k] candidates collide with outstanding
    tokens and the next one be free.  Then registerToken, given more than
    [k] rounds, returns: the candidates that collide are drawn again, the
    token returned is the free one, it is no key of the token map at the
    time of insertion, and the map after the call is the old map with the
    single new entry token -> client (one entry more, every other entry as
    before).  The client set is not touched. *)
Theorem registerToken_fresh_token
    (fuel : nat) (client : ptr) (w : World) (k : nat) :
  first_free (mTokenMap w) (mTokenEngine w) k →
  (k < fuel)%nat →
  ∃ handle w1,
    registerToken fuel client w = Some (Some handle, w1) ∧
    let token := to_uint32 (data0 handle) in
    token = to_uint32 (mTokenEngine w k) ∧
    mTokenMap w !! token = None ∧
    mTokenMap w1 = <[token := client]> (mTokenMap w) ∧
    mTokenMap w1 !! token = Some client ∧
    (∀ t, t ≠ token → mTokenMap w1 !! t = mTokenMap w !! t) ∧
    size (mTokenMap w1) = S (size (mTokenMap w)) ∧
    mClientSet w1 = mClientSet w.
Proof.
  intros Hfree Hfuel. eexists _, _. split; [by apply registerToken_at|].
  simpl. rewrite data0_fresh_handle, to_uint32_to_int32, to_uint32_idem.
  destruct Hfree as [_ Hfree].
  repeat split; try done.
  - apply lookup_insert_eq.
  - intros t Ht. by apply lookup_insert_ne.
  - by apply map_size_insert_None.
Qed.

Lemma registerToken_fresh_token_witness :
  first_free (mTokenMap world_minted) (mTokenEngine world_minted) 1 ∧
  (1 < 2)%nat ∧
  ∃ handle w1,
    registerToken 2 1%positive world_minted = Some (Some handle, w1) ∧
    let token := to_uint32 (data0 handle) in
    token = to_uint32 (mTokenEngine world_minted 1) ∧
    mTokenMap world_minted !! token = None ∧
    mTokenMap w1 = <[token := 1%positive]> (mTokenMap world_minted) ∧
    mTokenMap w1 !! token = Some 1%positive ∧
    (∀ t, t ≠ token → mTokenMap w1 !! t = mTokenMap world_minted !! t) ∧
    size (mTokenMap w1) = S (size (mTokenMap world_minted)) ∧
    mClientSet w1 = mClientSet world_minted.
Proof.
  assert (Hfree : first_free (mTokenMap world_minted)
                             (mTokenEngine world_minted) 1).
  { split.
    - intros i Hi. replace i with 0%nat by lia. vm_compute. eauto.
    - vm_compute. reflexivity. }
  assert (Hfuel : (1 < 2)%nat) by lia.
  split; [exact Hfree|]. split; [exact Hfuel|].
  exact (registerToken_fresh_token 2 1%positive world_minted 1 Hfree Hfuel).
Defined.

(** C10. Whenever registerToken returns a handle, that handle passes the
    guard of importBuffer: it is not null, has no file descriptor and
    exactly one integer; that integer read back as [uint32_t] is the key
    that was free before and now maps to the client; so importBuffer, given
    this handle in the state registerToken left, does not answer
    INVALID_TOKEN. *)
Theorem registerToken_handle_well_formed
    (addSlot : Z → Z * Z) (fuel : nat) (client : ptr) (w : World)
    (tokenHandle : hidl_handle) (w1 : World) :
  registerToken fuel client w = Some (tokenHandle, w1) →
  carrier_malformed tokenHandle = false ∧
  ∃ h, tokenHandle = Some h ∧
       numFds h = 0 ∧ numInts h = 1 ∧
       mTokenMap w !! to_uint32 (data0 h) = None ∧
       mTokenMap w1 = <[to_uint32 (data0 h) := client]> (mTokenMap w) ∧
       mTokenMap w1 !! to_uint32 (data0 h) = Some client ∧
       status (importBuffer addSlot tokenHandle w1).1 ≠ INVALID_TOKEN.
Proof.
  intros (k & _ & [_ Hfree] & -> & ->)%registerToken_sound.
  split; [done|]. eexists. split; [done|].
  rewrite token_of_fresh_handle.
  split_and!; try done.
  - apply lookup_insert_eq.
  - apply (importBuffer_present addSlot _ _ client); [done|].
    rewrite token_of_fresh_handle. apply lookup_insert_eq.
Qed.

Lemma registerToken_handle_well_formed_witness :
  registerToken 1 1%positive world_alloc = Some (token5, world_minted) ∧
  carrier_malformed token5 = false ∧
  status (importBuffer addConsumerSlot token5 world_minted).1 ≠ INVALID_TOKEN.
Proof.
  assert (Hreg : registerToken 1 1%positive world_alloc
                 = Some (token5, world_minted)) by reflexivity.
  split; [exact Hreg|].
  pose proof (registerToken_handle_well_formed addConsumerSlot 1 1%positive
                world_alloc token5 world_minted Hreg) as [Hok Hthm].
  split; [exact Hok|].
  destruct Hthm as (h & _ & _ & _ & _ & _ & _ & Hstatus).
  exact Hstatus.
Defined.

(** ** onClientClosed *)

(** The scan erases exactly the keys listed with the client as value. *)
Lemma erase_scan_lookup client (l : list (Z * ptr)) (m : gmap Z ptr) k :
  foldl (erase_if_client client) m l !! k
  = if decide ((k, client) ∈ l) then None else m !! k.
Proof.
  revert m. induction l as [|[k' v'] l IH]; intros m; cbn [foldl].
  - case_decide as Hin; [|done]. by apply elem_of_nil in Hin.
  - rewrite IH. unfold erase_if_client. cbn [fst snd].
    destruct (decide ((k, client) ∈ l)) as [Hin|Hout].
    + rewrite decide_True by (by right). done.
    + destruct (decide (v' = client)) as [->|Hv].
      * destruct (decide (k' = k)) as [->|Hk].
        -- rewrite lookup_delete_eq, decide_True by left. done.
        -- rewrite lookup_delete_ne by done.
           rewrite decide_False; [done|].
           intros [[= ?]|?]%elem_of_cons; done.
      * rewrite decide_False; [done|].
        intros [[= ? ?]|?]%elem_of_cons; by subst.
Qed.

Lemma removeTokenByClient_lookup client w t :
  mTokenMap (removeTokenByClient client w) !! t
  = if decide (mTokenMap w !! t = Some client) then None else mTokenMap w !! t.
Proof.
  unfold removeTokenByClient. simpl. rewrite erase_scan_lookup.
  destruct (decide ((t, client) ∈ map_to_list (mTokenMap w))) as [Hin|Hout].
  - apply elem_of_map_to_list in Hin. by rewrite decide_True.
  - rewrite decide_False; [done|]. by rewrite <- elem_of_map_to_list.
Qed.

(** The scan is a filter on the token map. *)
Lemma removeTokenByClient_filter client w :
  mTokenMap (removeTokenByClient client w)
  = filter (λ kv, kv.2 ≠ client) (mTokenMap w).
Proof.
  apply map_eq. intros t. rewrite removeTokenByClient_lookup.
  destruct (mTokenMap w !! t) as [v|] eqn:Hv.
  - case_decide as Hc.
    + injection Hc as ->. symmetry. apply map_lookup_filter_None. right.
      intros v Hv'. simpl. rewrite Hv in Hv'. injection Hv' as <-. tauto.
    + symmetry. apply map_lookup_filter_Some. split; [done|].
      simpl. congruence.
  - rewrite decide_False by done. symmetry.
    apply map_lookup_filter_None. by left.
Qed.

Lemma onClientClosed_tokens client w :
  mTokenMap (onClientClosed client w)
  = mTokenMap (removeTokenByClient client w).
Proof. unfold onClientClosed. by case_decide. Qed.

Lemma onClientClosed_clients client w :
  mClientSet (onClientClosed client w) = mClientSet w ∖ {[client]}.
Proof.
  unfold onClientClosed. case_decide as Hin; simpl; [done|].
  simpl in Hin. set_solver.
Qed.

(** C2. For every client, with or without tokens: closing it runs
    removeTokenByClient and then takes the client out of the client set.
    Afterwards no token maps to the client, every token of other clients is
    where it was, the client is not in the client set while every other
    client is registered as before, and importBuffer with the carrier of any
    token that was mapped to the client answers INVALID_TOKEN. *)
Theorem onClientClosed_purges_tokens
    (addSlot : Z → Z * Z) (client : ptr) (w : World) :
  let w1 := onClientClosed client w in
  mTokenMap w1 = mTokenMap (removeTokenByClient client w) ∧
  mTokenMap w1 = filter (λ kv, kv.2 ≠ client) (mTokenMap w) ∧
  (∀ t, mTokenMap w1 !! t ≠ Some client) ∧
  (∀ t p, p ≠ client →
          (mTokenMap w1 !! t = Some p ↔ mTokenMap w !! t = Some p)) ∧
  mClientSet w1 = mClientSet (removeTokenByClient client w) ∖ {[client]} ∧
  mClientSet w1 = mClientSet w ∖ {[client]} ∧
  (client ∉ mClientSet w1) ∧
  (∀ c, c ≠ client → (c ∈ mClientSet w1 ↔ c ∈ mClientSet w)) ∧
  (∀ h, wrong_format h = false →
        mTokenMap w !! to_uint32 (data0 h) = Some client →
        importBuffer addSlot (Some h) w1 = (failed INVALID_TOKEN, w1)).
Proof.
  intros w1.
  assert (Hlookup : ∀ t, mTokenMap w1 !! t
            = if decide (mTokenMap w !! t = Some client)
              then None else mTokenMap w !! t).
  { intros t. unfold w1.
    by rewrite onClientClosed_tokens, removeTokenByClient_lookup. }
  assert (Hset : mClientSet w1 = mClientSet w ∖ {[client]})
    by apply onClientClosed_clients.
  split_and!.
  - apply onClientClosed_tokens.
  - unfold w1. by rewrite onClientClosed_tokens, removeTokenByClient_filter.
  - intros t. rewrite Hlookup. by case_decide.
  - intros t p Hp. rewrite Hlookup. case_decide as Hc; [|done].
    rewrite Hc. split; [done|]. by intros [= <-].
  - done.
  - done.
  - rewrite Hset. set_solver.
  - intros c Hc. rewrite Hset. set_solver.
  - intros h Hfmt Hmine. apply importBuffer_absent.
    rewrite Hlookup. by rewrite decide_True.
Qed.

(** Closing client 2 of [world_shared], which holds no token, takes it out
    of the client set; closing client 1 of [world_minted] makes its token 5
    useless. *)
Lemma onClientClosed_purges_tokens_witness :
  elements (mClientSet (onClientClosed 2%positive world_shared))
  = [1%positive] ∧
  (2%positive ∉ mClientSet (onClientClosed 2%positive world_shared)) ∧
  wrong_format handle5 = false ∧
  mTokenMap world_minted !! to_uint32 (data0 handle5) = Some 1%positive ∧
  importBuffer addConsumerSlot (Some handle5)
               (onClientClosed 1%positive world_minted)
  = (failed INVALID_TOKEN, onClientClosed 1%positive world_minted).
Proof.
  assert (Hfmt : wrong_format handle5 = false) by reflexivity.
  assert (Hp : mTokenMap world_minted !! to_uint32 (data0 handle5)
               = Some 1%positive) by (vm_compute; reflexivity).
  split; [vm_compute; reflexivity|].
  split.
  { exact (proj1 (proj2 (proj2 (proj2 (proj2 (proj2 (proj2
             (onClientClosed_purges_tokens addConsumerSlot 2%positive
                world_shared)))))))). }
  split; [exact Hfmt|]. split; [exact Hp|].
  exact (proj2 (proj2 (proj2 (proj2 (proj2 (proj2 (proj2 (proj2
           (onClientClosed_purges_tokens addConsumerSlot 1%positive
              world_minted))))))))
           handle5 Hfmt Hp).
Defined.

(** ** allocate, mint, import *)

(** What a successful allocateBuffer returns and leaves behind. *)
Lemma allocateBuffer_success env description userMetadataSize w reply w1 :
  allocateBuffer env description userMetadataSize w = (reply, w1) →
  status reply = NO_ERROR →
  let node := BufferNode_new env (width description) (height description)
                (layers description) (format description) (usage description)
                userMetadataSize (getId env) in
  reply = mkReply NO_ERROR (Some (clientNext w))
                  (mkTraits description (buffer_handle node) None) ∧
  w1 = mkWorld (mTokenMap w) ({[clientNext w]} ∪ mClientSet w) (mTokenEngine w)
               (<[clientNext w := mkClient (nodeNext w)]> (clientHeap w))
               (Pos.succ (clientNext w))
               (<[nodeNext w := node]> (nodeHeap w))
               (Pos.succ (nodeNext w)).
Proof.
  unfold allocateBuffer. destruct (IsValid _); simpl.
  - intros [= <- <-] _. done.
  - intros [= <- <-]. done.
Qed.

(** What a successful importBuffer returns and leaves behind. *)
Lemma importBuffer_success addSlot h w reply w1 :
  importBuffer addSlot (Some h) w = (reply, w1) →
  status reply = NO_ERROR →
  ∃ p origin,
    mTokenMap w !! to_uint32 (data0 h) = Some p ∧
    promote w p = Some origin ∧
    let node := nodeHeap w (mBufferNode origin) in
    reply = mkReply NO_ERROR (Some (clientNext w))
                    (mkTraits (buffer_desc node) (buffer_handle node) None) ∧
    mClientSet w1 = {[clientNext w]} ∪ mClientSet w ∧
    clientHeap w1 = <[clientNext w := mkClient (mBufferNode origin)]>
                      (clientHeap w).
Proof.
  simpl. destruct (wrong_format h); [by intros [= <- <-]|].
  destruct (mTokenMap w !! _) as [p|] eqn:Hp; [|by intros [= <- <-]].
  unfold promote. simpl.
  destruct (clientHeap w !! p) as [origin|] eqn:Horigin;
    [|by intros [= <- <-]].
  simpl. destruct (addSlot _) as [clientStateMask mask].
  case_bool_decide; [by intros [= <- <-]|].
  intros [= <- <-] _. exists p, origin. simpl.
  rewrite fn_lookup_insert. done.
Qed.

(** C9. After a successful allocateBuffer, a token minted for the client it
    returned, and a successful importBuffer of that token, the descriptor in
    the traits of the import has the width, height, layers, format and usage
    of the descriptor in the traits of the allocation, and the two clients
    returned are distinct live clients holding the same BufferNode. *)
Theorem allocate_mint_import_round_trip
    (addSlot : Z → Z * Z) (env : AllocEnv)
    (description : HardwareBufferDescription) (userMetadataSize : Z)
    (fuel : nat) (w0 w1 w2 w3 : World) (reply1 reply2 : Reply)
    (p1 : ptr) (tokenHandle : hidl_handle) :
  allocateBuffer env description userMetadataSize w0 = (reply1, w1) →
  status reply1 = NO_ERROR →
  bufferClient reply1 = Some p1 →
  registerToken fuel p1 w1 = Some (tokenHandle, w2) →
  importBuffer addSlot tokenHandle w2 = (reply2, w3) →
  status reply2 = NO_ERROR →
  let d1 := bufferDesc (bufferTraits reply1) in
  let d2 := bufferDesc (bufferTraits reply2) in
  (width d2 = width d1 ∧ height d2 = height d1 ∧ layers d2 = layers d1 ∧
   format d2 = format d1 ∧ usage d2 = usage d1) ∧
  ∃ p2 c1 c2,
    bufferClient reply2 = Some p2 ∧ p2 ≠ p1 ∧
    promote w3 p1 = Some c1 ∧ promote w3 p2 = Some c2 ∧
    mBufferNode c1 = mBufferNode c2.
Proof.
  intros Halloc Hok1 Hp1 Hmint Himport Hok2.
  apply allocateBuffer_success in Halloc as [-> ->]; [|done].
  simpl in Hp1. injection Hp1 as <-.
  apply registerToken_sound in Hmint as (k & _ & _ & Hhandle & Hw2).
  cbn zeta in Hhandle, Hw2. set (token := mTokenEngine _ k) in *.
  assert (Hlook : mTokenMap w2
                  !! to_uint32 (data0 (set_data0 (native_handle_create 0 1)
                                         (to_uint32 token)))
                  = Some (clientNext w0)).
  { rewrite token_of_fresh_handle, Hw2. apply lookup_insert_eq. }
  assert (Hheap2 : clientHeap w2 = <[clientNext w0 := mkClient (nodeNext w0)]>
                                     (clientHeap w0))
    by (by rewrite Hw2).
  assert (Hnext2 : clientNext w2 = Pos.succ (clientNext w0))
    by (by rewrite Hw2).
  assert (Hnode2 : nodeHeap w2 (nodeNext w0)
                   = BufferNode_new env (width description)
                       (height description) (layers description)
                       (format description) (usage description)
                       userMetadataSize (getId env)).
  { rewrite Hw2. simpl. by rewrite fn_lookup_insert. }
  clearbody token. clear Hw2. subst tokenHandle.
  apply importBuffer_success in Himport
    as (p & origin & Hp & Horigin & -> & _ & Hheap3); [|done].
  rewrite Hlook in Hp. injection Hp as <-.
  unfold promote in *. rewrite Hheap2, lookup_insert_eq in Horigin.
  injection Horigin as <-. simpl. rewrite Hnode2. simpl.
  split; [done|].
  exists (clientNext w2), (mkClient (nodeNext w0)), (mkClient (nodeNext w0)).
  rewrite Hheap3, Hheap2, Hnext2. split_and!; try done.
  - lia.
  - rewrite lookup_insert_ne by lia. apply lookup_insert_eq.
  - apply lookup_insert_eq.
Qed.

Lemma allocate_mint_import_round_trip_witness :
  let reply1 := (allocateBuffer env_ok desc64 0 world0).1 in
  let reply2 := (importBuffer addConsumerSlot token5 world_minted).1 in
  status reply1 = NO_ERROR ∧
  bufferClient reply1 = Some 1%positive ∧
  registerToken 1 1%positive world_alloc = Some (token5, world_minted) ∧
  status reply2 = NO_ERROR ∧
  usage (bufferDesc (bufferTraits reply2))
  = usage (bufferDesc (bufferTraits reply1)).
Proof.
  intros reply1 reply2.
  assert (Halloc : allocateBuffer env_ok desc64 0 world0
                   = (reply1, world_alloc)) by reflexivity.
  assert (Hok1 : status reply1 = NO_ERROR) by reflexivity.
  assert (Hp1 : bufferClient reply1 = Some 1%positive) by reflexivity.
  assert (Hmint : registerToken 1 1%positive world_alloc
                  = Some (token5, world_minted)) by reflexivity.
  assert (Himport : importBuffer addConsumerSlot token5 world_minted
                    = (reply2,
                       (importBuffer addConsumerSlot token5 world_minted).2))
    by reflexivity.
  assert (Hok2 : status reply2 = NO_ERROR) by (vm_compute; reflexivity).
  split; [exact Hok1|]. split; [exact Hp1|]. split; [exact Hmint|].
  split; [exact Hok2|].
  pose proof (allocate_mint_import_round_trip addConsumerSlot env_ok desc64 0
                1 world0 world_alloc world_minted _ reply1 reply2
                1%positive token5 Halloc Hok1 Hp1 Hmint Himport Hok2)
    as [Hdesc _].
  exact (proj2 (proj2 (proj2 (proj2 Hdesc)))).
Defined.

(** ** debug: the Active Buffers table *)

Lemma filter_snoc {A} (P : A → Prop) `{∀ x, Decision (P x)} (l : list A) x :
  filter P (l ++ [x]) = filter P l ++ (if decide (P x) then [x] else []).
Proof.
  by rewrite filter_app.
Qed.

Lemma counted_nil w : counted w [] ∅.
Proof. intros k. simpl. by rewrite lookup_empty. Qed.

(** One round of the loop keeps the invariant. *)
Lemma counted_step w seen acc p :
  counted w seen acc → counted w (seen ++ [p]) (count_client w acc p).
Proof.
  intros Hinv k. cbn zeta. rewrite filter_snoc.
  specialize (Hinv k). cbn zeta in Hinv.
  unfold count_client, client_key in *.
  destruct (promote w p) as [client|] eqn:Hclient.
  - set (k0 := buffer_key (nodeHeap w (mBufferNode client))) in *.
    destruct (decide (k0 = k)) as [Hk|Hk].
    + rewrite decide_True by (by rewrite Hk).
      rewrite length_app. simpl length.
      destruct (acc !! k0) as [[first n]|] eqn:Hacc.
      * rewrite Hk in *. rewrite Hacc in Hinv. rewrite lookup_insert_eq.
        destruct Hinv as (Hfirst & Hpos & ->).
        split_and!; [done|lia|].
        rewrite to_uint32_succ. f_equal. lia.
      * rewrite emplace_fresh by done. rewrite Hk in *.
        rewrite Hacc in Hinv. rewrite lookup_insert_eq, Hinv.
        simpl. split_and!; [done|lia|done].
    + rewrite decide_False by congruence. rewrite app_nil_r.
      destruct (acc !! k0) as [[first n]|] eqn:Hacc.
      * by rewrite lookup_insert_ne.
      * rewrite emplace_fresh by done. by rewrite lookup_insert_ne.
  - rewrite decide_False by done. by rewrite app_nil_r.
Qed.

Lemma counted_foldl w l seen acc :
  counted w seen acc → counted w (seen ++ l) (foldl (count_client w) acc l).
Proof.
  revert seen acc. induction l as [|p l IH]; intros seen acc Hinv; simpl.
  - by rewrite app_nil_r.
  - rewrite cons_middle, app_assoc. apply IH. by apply counted_step.
Qed.

Lemma clientCount_counted w :
  counted w (elements (mClientSet w)) (clientCount w).
Proof. apply (counted_foldl w _ []), counted_nil. Qed.

Lemma elem_of_in_key_order {V} (m : gmap Z V) k v :
  (k, v) ∈ in_key_order m ↔ m !! k = Some v.
Proof.
  unfold in_key_order. rewrite merge_sort_Permutation.
  apply elem_of_map_to_list.
Qed.

Lemma elem_of_live_clients w k p :
  p ∈ live_clients w k ↔
  p ∈ mClientSet w ∧
  ∃ client, promote w p = Some client ∧
            buffer_key (nodeHeap w (mBufferNode client)) = k.
Proof.
  unfold live_clients, client_key.
  rewrite list_elem_of_filter, elem_of_elements.
  split.
  - intros [Hlive Hin]. split; [done|].
    destruct (promote w p) as [client|]; [|done].
    exists client. split; [done|]. congruence.
  - intros [Hin (client & -> & <-)]. done.
Qed.

Lemma length_live_clients w k :
  (length (live_clients w k) ≤ size (mClientSet w))%nat.
Proof. unfold live_clients. apply length_filter. Qed.

(** C8. Every row of the Active Buffers table stands for a buffer with at
    least one live client: expired weak pointers of the client set add
    nothing to the table, the buffer of a row is held by some registered
    client that can still be promoted, and the Clients column is the number
    of registered clients that are alive and hold a buffer with the id of
    the row, so it is never 0.  (Buffers are told apart by the [int] key
    debug() files them under, which is one-to-one on 32-bit ids; the count
    is a [uint32_t], exact for a client set of fewer than 2^32 entries.) *)
Theorem debug_lists_live_buffers_only
    (fd : hidl_handle) (nargs : nat) (w : World)
    (report : Report) (row : ActiveBufferRow) :
  Z.of_nat (size (mClientSet w)) < 2 ^ 32 →
  debug fd nargs w = Some report →
  row ∈ activeBuffers report →
  let live := live_clients w (to_int32 (row_Id row)) in
  row_Clients row = Z.of_nat (length live) ∧
  0 < row_Clients row ∧
  (∀ p, p ∈ live ↔
        p ∈ mClientSet w ∧
        ∃ client, promote w p = Some client ∧
                  to_int32 (node_id (nodeHeap w (mBufferNode client)))
                  = to_int32 (row_Id row)) ∧
  (∃ p client, p ∈ mClientSet w ∧ promote w p = Some client ∧
               to_int32 (node_id (nodeHeap w (mBufferNode client)))
               = to_int32 (row_Id row)).
Proof.
  intros Hsize Hdebug Hrow live.
  assert (Hrows : activeBuffers report = active_buffers w).
  { unfold debug in Hdebug. destruct fd as [h|]; [|done].
    case_decide; [done|]. by injection Hdebug as <-. }
  rewrite Hrows in Hrow. unfold active_buffers in Hrow.
  apply list_elem_of_fmap in Hrow as ([k [first n]] & -> & Hentry).
  apply elem_of_in_key_order in Hentry.
  pose proof (clientCount_counted w k) as Hinv. cbn zeta in Hinv.
  rewrite Hentry in Hinv. destruct Hinv as (Hkey & Hpos & Hn).
  assert (Hk : to_int32 (row_Id (active_row w (k, (first, n)))) = k) by done.
  unfold live in *. clear live. rewrite Hk.
  fold (live_clients w k) in *.
  pose proof (length_live_clients w k) as Hle.
  assert (Hclients : row_Clients (active_row w (k, (first, n)))
                     = Z.of_nat (length (live_clients w k))).
  { simpl. rewrite Hn. apply to_uint32_small. lia. }
  split_and!.
  - done.
  - rewrite Hclients. lia.
  - intros p. apply elem_of_live_clients.
  - destruct (live_clients w k) as [|p ?] eqn:Hlive; [simpl in Hpos; lia|].
    assert (Hp : p ∈ live_clients w k) by (rewrite Hlive; left).
    apply elem_of_live_clients in Hp as (Hin & client & Hclient & Hsame).
    by exists p, client.
Qed.

Lemma debug_lists_live_buffers_only_witness :
  Z.of_nat (size (mClientSet world_shared)) < 2 ^ 32 ∧
  debug fd_out 0 world_shared = Some (mkReport false [row_shared] []) ∧
  row_shared ∈ activeBuffers (mkReport false [row_shared] []) ∧
  row_Clients row_shared
  = Z.of_nat (length (live_clients world_shared (to_int32 (row_Id row_shared)))).
Proof.
  assert (Hsize : Z.of_nat (size (mClientSet world_shared)) < 2 ^ 32)
    by (vm_compute; reflexivity).
  assert (Hdebug : debug fd_out 0 world_shared
                   = Some (mkReport false [row_shared] []))
    by (vm_compute; reflexivity).
  assert (Hrow : row_shared ∈ activeBuffers (mkReport false [row_shared] []))
    by (simpl; left).
  split; [exact Hsize|]. split; [exact Hdebug|]. split; [exact Hrow|].
  exact (proj1 (debug_lists_live_buffers_only fd_out 0 world_shared _
                  row_shared Hsize Hdebug Hrow)).
Defined.

(** X15. The other direction: the buffer of every registered client that is
    alive has a row in the Active Buffers table. *)
Lemma debug_lists_every_live_buffer fd nargs w report p client :
  debug fd nargs w = Some report →
  p ∈ mClientSet w →
  promote w p = Some client →
  ∃ row, row ∈ activeBuffers report ∧
         to_int32 (row_Id row)
         = to_int32 (node_id (nodeHeap w (mBufferNode client))).
Proof.
  intros Hdebug Hin Hclient.
  assert (Hrows : activeBuffers report = active_buffers w).
  { unfold debug in Hdebug. destruct fd as [h|]; [|done].
    case_decide; [done|]. by injection Hdebug as <-. }
  rewrite Hrows.
  set (k := buffer_key (nodeHeap w (mBufferNode client))).
  assert (Hlive : p ∈ live_clients w k)
    by (apply elem_of_live_clients; eauto).
  pose proof (clientCount_counted w k) as Hinv. cbn zeta in Hinv.
  fold (live_clients w k) in Hinv.
  destruct (clientCount w !! k) as [[first n]|] eqn:Hentry.
  - destruct Hinv as (Hkey & _ & _).
    exists (active_row w (k, (first, n))). split; [|done].
    unfold active_buffers. apply list_elem_of_fmap.
    exists (k, (first, n)). split; [done|]. by apply elem_of_in_key_order.
  - rewrite Hinv in Hlive. by apply elem_of_nil in Hlive.
Qed.

(** ** The scenario of the specification, run on the model *)

(** Allocating 64x64x1 with id 1 succeeds and leaves bit 0 set. *)
Example scenario_allocate :
  status (allocateBuffer env_ok desc64 0 world0).1 = NO_ERROR ∧
  node_id (nodeHeap world_alloc 1%positive) = 1 ∧
  active_clients_bit_mask (nodeHeap world_alloc 1%positive) = 1.
Proof. by vm_compute. Qed.

(** Importing the minted token succeeds, takes the next slot and registers
    a second client; importing it again is refused. *)
Example scenario_import :
  status (importBuffer addConsumerSlot token5 world_minted).1 = NO_ERROR ∧
  active_clients_bit_mask (nodeHeap world_shared 1%positive) = 3 ∧
  elements (mClientSet world_shared) = [2%positive; 1%positive] ∧
  status (importBuffer addConsumerSlot token5 world_shared).1 = INVALID_TOKEN.
Proof. by vm_compute. Qed.

(** After the importing client has been closed the table shows one client
    for buffer 1, and no token is outstanding. *)
Example scenario_close :
  debug fd_out 0 (onClientClosed 2%positive world_shared)
  = Some (mkReport false [mkRow 1 1 (Dimensions 64 64 1) 1 2 0 0] []).
Proof. by vm_compute. Qed.

(** A client that died without being closed stays in the client set but is
    passed over; once both are dead the buffer has no row. *)
Example debug_skips_expired :
  elements (mClientSet (delete_client 2%positive world_shared))
  = [2%positive; 1%positive] ∧
  active_buffers (delete_client 2%positive world_shared)
  = [mkRow 1 1 (Dimensions 64 64 1) 1 2 0 0] ∧
  active_buffers (delete_client 1%positive
                    (delete_client 2%positive world_shared)) = [].
Proof. by vm_compute. Qed.

(** A token left behind by a client that died without being closed. *)
Example import_after_origin_died :
  status (importBuffer addConsumerSlot token5 world_orphan).1 = BUFFER_FREED ∧
  mTokenMap (importBuffer addConsumerSlot token5 world_orphan).2 = ∅.
Proof. by vm_compute. Qed.

(** * Further properties of the service *)

(** Refutes a cause that the state at hand excludes. *)
Local Ltac no_such_cause :=
  intros;
  repeat match goal with
         | H : ex _ |- _ => destruct H
         | H : _ ∧ _ |- _ => destruct H
         end;
  simplify_eq; try congruence.

(** ** importBuffer: which answer, when *)

(** X1. importBuffer answers INVALID_TOKEN exactly when the carrier is
    malformed or the token it carries is not a key of the token map; in that
    case nothing at all changes. *)
Theorem importBuffer_invalid_token_iff
    (addSlot : Z → Z * Z) (tokenHandle : hidl_handle) (w : World) :
  let rejected :=
    carrier_malformed tokenHandle = true ∨
    ∃ h, tokenHandle = Some h ∧ mTokenMap w !! to_uint32 (data0 h) = None in
  (status (importBuffer addSlot tokenHandle w).1 = INVALID_TOKEN ↔ rejected) ∧
  (rejected → importBuffer addSlot tokenHandle w = (failed INVALID_TOKEN, w)).
Proof.
  cbn zeta. split.
  - split.
    + destruct tokenHandle as [h|]; [|by left].
      destruct (wrong_format h) eqn:Hfmt; [by left|].
      destruct (mTokenMap w !! to_uint32 (data0 h)) as [p|] eqn:Hp.
      * intros Hstatus. by apply (importBuffer_present addSlot h w p) in Hstatus.
      * intros _. right. by exists h.
    + intros [Hbad|(h & -> & Hnone)].
      * by rewrite importBuffer_malformed.
      * by rewrite importBuffer_absent.
  - intros [Hbad|(h & -> & Hnone)].
    + by apply importBuffer_malformed.
    + by apply importBuffer_absent.
Qed.

(** X2. importBuffer answers NO_ERROR exactly when the carrier is well
    formed, its token is in the token map, the client the token points to
    can be promoted, and the slot allocator returns a non-zero mask for the
    node of that client. *)
Theorem importBuffer_succeeds_iff
    (addSlot : Z → Z * Z) (tokenHandle : hidl_handle) (w : World) :
  status (importBuffer addSlot tokenHandle w).1 = NO_ERROR ↔
  ∃ h p origin,
    tokenHandle = Some h ∧ wrong_format h = false ∧
    mTokenMap w !! to_uint32 (data0 h) = Some p ∧
    promote w p = Some origin ∧
    (addSlot (active_clients_bit_mask (nodeHeap w (mBufferNode origin)))).1 ≠ 0.
Proof.
  split.
  - destruct tokenHandle as [h|]; [|done]. simpl.
    destruct (wrong_format h) eqn:Hfmt; [done|].
    destruct (mTokenMap w !! _) as [p|] eqn:Hp; [|done].
    unfold promote. simpl.
    destruct (clientHeap w !! p) as [origin|] eqn:Horigin; [|done].
    simpl. destruct (addSlot _) as [clientStateMask mask] eqn:Hslot.
    case_bool_decide as Hzero; [done|]. intros _.
    exists h, p, origin. rewrite Hslot. done.
  - intros (h & p & origin & -> & Hfmt & Hp & Horigin & Hslot).
    simpl. rewrite Hfmt, Hp. unfold promote in *. simpl. rewrite Horigin.
    simpl. destruct (addSlot _) as [clientStateMask mask].
    simpl in Hslot. by rewrite bool_decide_eq_false_2.
Qed.

(** X3. The two remaining answers have one cause each.  BUFFER_FREED is
    answered only for a token that was in the map and whose client cannot be
    promoted; MAX_CLIENT only for a token of a live client whose node got 0
    from the slot allocator.  importBuffer never answers
    ALLOCATION_FAILED. *)
Theorem importBuffer_failure_causes
    (addSlot : Z → Z * Z) (tokenHandle : hidl_handle) (w : World) :
  let reply := (importBuffer addSlot tokenHandle w).1 in
  (status reply = BUFFER_FREED ↔
   ∃ h p, tokenHandle = Some h ∧ wrong_format h = false ∧
          mTokenMap w !! to_uint32 (data0 h) = Some p ∧
          promote w p = None) ∧
  (status reply = MAX_CLIENT ↔
   ∃ h p origin,
     tokenHandle = Some h ∧ wrong_format h = false ∧
     mTokenMap w !! to_uint32 (data0 h) = Some p ∧
     promote w p = Some origin ∧
     (addSlot (active_clients_bit_mask
                 (nodeHeap w (mBufferNode origin)))).1 = 0) ∧
  status reply ≠ ALLOCATION_FAILED.
Proof.
  cbn zeta. destruct tokenHandle as [h|]; simpl.
  2: { split_and!; [split; [done|no_such_cause]..|done]. }
  destruct (wrong_format h) eqn:Hfmt; simpl.
  { split_and!; [split; [done|no_such_cause]..|done]. }
  destruct (mTokenMap w !! _) as [p|] eqn:Hp; simpl.
  2: { split_and!; [split; [done|no_such_cause]..|done]. }
  unfold promote. simpl.
  destruct (clientHeap w !! p) as [origin|] eqn:Horigin; simpl.
  2: { split_and!; [split|split; [done|no_such_cause]|done]; [|done].
       intros _. by exists h, p. }
  destruct (addSlot _) as [clientStateMask mask] eqn:Hslot.
  case_bool_decide as Hzero; simpl.
  - split_and!; [split; [done|no_such_cause]|split|done]; [|done].
    intros _. exists h, p, origin. by rewrite Hslot.
  - split_and!; [split; [done|no_such_cause]|split; [done|]|done].
    intros (h' & p' & origin' & [= <-] & _ & Hp' & Ho' & Hz).
    rewrite Hp in Hp'. injection Hp' as <-.
    rewrite Horigin in Ho'. injection Ho' as <-.
    rewrite Hslot in Hz. done.
Qed.

(** ** importBuffer: what a call leaves behind *)

(** X4. A successful importBuffer hands out a new client: it is the object
    just created (the next identity of the heap, which differs from the
    client the token pointed to whenever that identity was unused), it is
    alive, registered in the client set and holds the very node of the
    client the token pointed to, which stays alive beside it; the heap
    gains this one object.  The traits carry that node's descriptor and
    buffer handle and a null bufferInfo; the token is gone from the map, and
    the node keeps its id and descriptor while its bit mask is the one the
    slot allocator left. *)
Theorem importBuffer_success_effects
    (addSlot : Z → Z * Z) (h : native_handle_t) (w w1 : World)
    (reply : Reply) :
  importBuffer addSlot (Some h) w = (reply, w1) →
  status reply = NO_ERROR →
  ∃ p origin client,
    mTokenMap w !! to_uint32 (data0 h) = Some p ∧
    promote w p = Some origin ∧
    bufferClient reply = Some client ∧
    client = clientNext w ∧
    clientNext w1 = Pos.succ (clientNext w) ∧
    clientHeap w1 = <[client := mkClient (mBufferNode origin)]> (clientHeap w) ∧
    (promote w client = None →
     client ≠ p ∧ promote w1 p = Some origin ∧ client ∉ dom (clientHeap w)) ∧
    client ∈ mClientSet w1 ∧
    promote w1 client = Some (mkClient (mBufferNode origin)) ∧
    mClientSet w1 = {[client]} ∪ mClientSet w ∧
    mTokenMap w1 = delete (to_uint32 (data0 h)) (mTokenMap w) ∧
    let node := nodeHeap w (mBufferNode origin) in
    let node1 := nodeHeap w1 (mBufferNode origin) in
    bufferTraits reply = mkTraits (buffer_desc node) (buffer_handle node) None ∧
    node_id node1 = node_id node ∧
    buffer_desc node1 = buffer_desc node ∧
    active_clients_bit_mask node1
    = (addSlot (active_clients_bit_mask node)).2.
Proof.
  simpl. destruct (wrong_format h); [by intros [= <- <-]|].
  destruct (mTokenMap w !! _) as [p|] eqn:Hp; [|by intros [= <- <-]].
  unfold promote. simpl.
  destruct (clientHeap w !! p) as [origin|] eqn:Horigin;
    [|by intros [= <- <-]].
  simpl. destruct (addSlot _) as [clientStateMask mask] eqn:Hslot.
  case_bool_decide; [by intros [= <- <-]|].
  intros [= <- <-] _. exists p, origin, (clientNext w). simpl.
  rewrite !fn_lookup_insert, lookup_insert_eq.
  split_and!; try done; [|set_solver|by rewrite Hslot].
  intros Hfresh.
  assert (Hne : clientNext w ≠ p) by (intros Heq; congruence).
  split_and!; [done| |by apply not_elem_of_dom].
  by rewrite lookup_insert_ne.
Qed.

Lemma importBuffer_success_effects_witness :
  importBuffer addConsumerSlot (Some handle5) world_minted
  = ((importBuffer addConsumerSlot (Some handle5) world_minted).1,
     world_shared) ∧
  status (importBuffer addConsumerSlot (Some handle5) world_minted).1
  = NO_ERROR ∧
  ∃ p origin client,
    mTokenMap world_minted !! to_uint32 (data0 handle5) = Some p ∧
    promote world_minted p = Some origin ∧
    bufferClient (importBuffer addConsumerSlot (Some handle5) world_minted).1
    = Some client ∧
    client = clientNext world_minted ∧
    client ∈ mClientSet world_shared.
Proof.
  assert (Hrun : importBuffer addConsumerSlot (Some handle5) world_minted
                 = ((importBuffer addConsumerSlot (Some handle5)
                       world_minted).1, world_shared)) by reflexivity.
  assert (Hok : status (importBuffer addConsumerSlot (Some handle5)
                          world_minted).1 = NO_ERROR)
    by (vm_compute; reflexivity).
  split; [exact Hrun|]. split; [exact Hok|].
  destruct (importBuffer_success_effects addConsumerSlot handle5 world_minted
              world_shared _ Hrun Hok)
    as (p & origin & client & Hp & Horigin & Hclient & Hnew & _ & _ & _
        & Hin & _).
  exists p, origin, client.
  exact (conj Hp (conj Horigin (conj Hclient (conj Hnew Hin)))).
Defined.

(** X5. The reply of importBuffer carries a client exactly when its status
    is NO_ERROR; every other reply is the bare status with a null client and
    empty traits. *)
Theorem importBuffer_reply_shape
    (addSlot : Z → Z * Z) (tokenHandle : hidl_handle) (w : World) :
  let reply := (importBuffer addSlot tokenHandle w).1 in
  (status reply = NO_ERROR ↔ is_Some (bufferClient reply)) ∧
  (status reply ≠ NO_ERROR → reply = failed (status reply)).
Proof.
  cbn zeta. destruct tokenHandle as [h|]; simpl.
  2: { split; [split; [done|by intros [? ?]]|done]. }
  destruct (wrong_format h).
  { split; [split; [done|by intros [? ?]]|done]. }
  destruct (mTokenMap w !! _) as [p|].
  2: { split; [split; [done|by intros [? ?]]|done]. }
  destruct (promote _ p) as [origin|].
  2: { split; [split; [done|by intros [? ?]]|done]. }
  simpl. destruct (addSlot _) as [clientStateMask mask].
  case_bool_decide; simpl.
  - split; [split; [done|by intros [? ?]]|done].
  - split; [split; [by eexists|done]|done].
Qed.

(** X6. Whatever its answer, importBuffer adds no token and changes none;
    the only key that can leave the token map is the one carried.  No
    client leaves the client set and at most the new client joins it.  The
    token engine is not advanced. *)
Theorem importBuffer_frame
    (addSlot : Z → Z * Z) (tokenHandle : hidl_handle) (w : World) :
  let w1 := (importBuffer addSlot tokenHandle w).2 in
  (∀ t p, mTokenMap w1 !! t = Some p → mTokenMap w !! t = Some p) ∧
  (∀ t, mTokenMap w1 !! t ≠ mTokenMap w !! t →
        ∃ h, tokenHandle = Some h ∧ t = to_uint32 (data0 h)) ∧
  mClientSet w ⊆ mClientSet w1 ∧
  (∀ c, c ∈ mClientSet w1 → c ∈ mClientSet w ∨ c = clientNext w) ∧
  mTokenEngine w1 = mTokenEngine w.
Proof.
  cbn zeta.
  assert (Hsame : ∀ w1 : World,
            mTokenMap w1 = mTokenMap w → mClientSet w1 = mClientSet w →
            mTokenEngine w1 = mTokenEngine w →
            (∀ t p, mTokenMap w1 !! t = Some p → mTokenMap w !! t = Some p) ∧
            (∀ t, mTokenMap w1 !! t ≠ mTokenMap w !! t →
                  ∃ h, tokenHandle = Some h ∧ t = to_uint32 (data0 h)) ∧
            mClientSet w ⊆ mClientSet w1 ∧
            (∀ c, c ∈ mClientSet w1 → c ∈ mClientSet w ∨ c = clientNext w) ∧
            mTokenEngine w1 = mTokenEngine w).
  { intros w1 -> -> ->. split_and!; [done|done|done|by left|done]. }
  destruct tokenHandle as [h|]; simpl; [|by apply Hsame].
  destruct (wrong_format h); [by apply Hsame|].
  destruct (mTokenMap w !! _) as [p|] eqn:Hp; [|by apply Hsame].
  assert (Herased : ∀ t q, delete (to_uint32 (data0 h)) (mTokenMap w) !! t
                           = Some q → mTokenMap w !! t = Some q).
  { intros t q. rewrite lookup_delete_Some. tauto. }
  assert (Honly : ∀ t, delete (to_uint32 (data0 h)) (mTokenMap w) !! t
                       ≠ mTokenMap w !! t →
                  ∃ h', Some h = Some h' ∧ t = to_uint32 (data0 h')).
  { intros t Hne. exists h. split; [done|].
    destruct (decide (t = to_uint32 (data0 h))) as [|Hother]; [done|].
    by rewrite lookup_delete_ne in Hne. }
  destruct (promote _ p) as [origin|]; simpl.
  2: { split_and!; [done|done|done|by left|done]. }
  destruct (addSlot _) as [clientStateMask mask].
  case_bool_decide; simpl.
  - split_and!; [done|done|done|by left|done].
  - split_and!; [done|done|set_solver|set_solver|done].
Qed.

(** ** allocateBuffer *)



(** X8. allocateBuffer has two answers only, NO_ERROR and ALLOCATION_FAILED;
    its reply carries a client exactly when the status is NO_ERROR. *)
Theorem allocateBuffer_reply_shape
    (env : AllocEnv) (description : HardwareBufferDescription)
    (userMetadataSize : Z) (w : World) :
  let reply := (allocateBuffer env description userMetadataSize w).1 in
  (status reply = NO_ERROR ∨ reply = failed ALLOCATION_FAILED) ∧
  (status reply = NO_ERROR ↔ is_Some (bufferClient reply)).
Proof.
  cbn zeta. unfold allocateBuffer. destruct (IsValid _); simpl.
  - split; [by left|]. split; [by eexists|done].
  - split; [by right|]. split; [done|by intros [? ?]].
Qed.

(** ** onClientClosed as a whole *)

(** Closing a client filters the token map and takes the client out of the
    client set; nothing else is touched. *)
Lemma onClientClosed_unfold client w :
  onClientClosed client w
  = mkWorld (filter (λ kv, kv.2 ≠ client) (mTokenMap w))
            (mClientSet w ∖ {[client]}) (mTokenEngine w)
            (clientHeap w) (clientNext w) (nodeHeap w) (nodeNext w).
Proof.
  pose proof (removeTokenByClient_filter client w) as Hfilter.
  unfold onClientClosed. case_decide as Hin.
  - unfold set_mClientSet. rewrite Hfilter. done.
  - assert (Hset : mClientSet w ∖ {[client]} = mClientSet w)
      by (simpl in Hin; set_solver).
    rewrite Hset, <- Hfilter. done.
Qed.

(** X9. Closing a client that has no token in the token map and is not in
    the client set changes nothing. *)
Theorem onClientClosed_stranger
    (client : ptr) (w : World) :
  (∀ t, mTokenMap w !! t ≠ Some client) →
  client ∉ mClientSet w →
  onClientClosed client w = w.
Proof.
  intros Hnone Hout. rewrite onClientClosed_unfold.
  rewrite map_filter_id.
  - replace (mClientSet w ∖ {[client]}) with (mClientSet w) by set_solver.
    by destruct w.
  - intros t p Hp. simpl. intros ->. by apply (Hnone t).
Qed.

Lemma onClientClosed_stranger_witness :
  (∀ t, mTokenMap world_minted !! t ≠ Some 7%positive) ∧
  (7%positive ∉ mClientSet world_minted) ∧
  onClientClosed 7%positive world_minted = world_minted.
Proof.
  assert (Hnone : ∀ t, mTokenMap world_minted !! t ≠ Some 7%positive).
  { intros t Ht.
    assert (Hin : (t, 7%positive) ∈ map_to_list (mTokenMap world_minted))
      by (by apply elem_of_map_to_list).
    vm_compute in Hin. apply list_elem_of_singleton in Hin. discriminate. }
  assert (Hout : 7%positive ∉ mClientSet world_minted).
  { intros Hin%elem_of_elements. vm_compute in Hin.
    apply list_elem_of_singleton in Hin. discriminate. }
  split; [exact Hnone|]. split; [exact Hout|].
  exact (onClientClosed_stranger 7%positive world_minted Hnone Hout).
Defined.

(** X10. Closing is idempotent: closing a client a second time leaves the
    state of the first closing. *)
Theorem onClientClosed_idempotent (client : ptr) (w : World) :
  onClientClosed client (onClientClosed client w) = onClientClosed client w.
Proof.
  rewrite !onClientClosed_unfold. simpl. f_equal.
  - by apply map_filter_filter_l.
  - set_solver.
Qed.

(** X11. Closing two clients gives the same state in either order. *)
Theorem onClientClosed_comm (a b : ptr) (w : World) :
  onClientClosed a (onClientClosed b w) = onClientClosed b (onClientClosed a w).
Proof.
  rewrite !onClientClosed_unfold. simpl. f_equal.
  - apply map_filter_comm.
  - set_solver.
Qed.

(** ** Minting composed with the other operations *)

(** X12. A token is worthless once the client it was minted for has been
    closed: importBuffer with the handle registerToken returned answers
    INVALID_TOKEN in the state onClientClosed leaves, and changes nothing. *)
Theorem mint_close_import
    (addSlot : Z → Z * Z) (fuel : nat) (client : ptr) (w w1 : World)
    (tokenHandle : hidl_handle) :
  registerToken fuel client w = Some (tokenHandle, w1) →
  importBuffer addSlot tokenHandle (onClientClosed client w1)
  = (failed INVALID_TOKEN, onClientClosed client w1).
Proof.
  intros (k & _ & _ & -> & ->)%registerToken_sound.
  apply importBuffer_absent.
  rewrite onClientClosed_tokens, removeTokenByClient_lookup.
  rewrite token_of_fresh_handle. simpl.
  by rewrite decide_True by apply lookup_insert_eq.
Qed.

Lemma mint_close_import_witness :
  registerToken 1 1%positive world_alloc = Some (token5, world_minted) ∧
  importBuffer addConsumerSlot token5 (onClientClosed 1%positive world_minted)
  = (failed INVALID_TOKEN, onClientClosed 1%positive world_minted).
Proof.
  assert (Hmint : registerToken 1 1%positive world_alloc
                  = Some (token5, world_minted)) by reflexivity.
  split; [exact Hmint|].
  exact (mint_close_import addConsumerSlot 1 1%positive world_alloc
           world_minted token5 Hmint).
Defined.

(** X13. Two tokens minted one after the other are different, whoever they
    are minted for, and after the second call both are in the token map,
    each pointing to its own client; the map has grown by two. *)
Theorem registerToken_twice_distinct
    (fuel1 fuel2 : nat) (c1 c2 : ptr) (w w1 w2 : World)
    (h1 h2 : native_handle_t) :
  registerToken fuel1 c1 w = Some (Some h1, w1) →
  registerToken fuel2 c2 w1 = Some (Some h2, w2) →
  let t1 := to_uint32 (data0 h1) in
  let t2 := to_uint32 (data0 h2) in
  t1 ≠ t2 ∧
  mTokenMap w2 !! t1 = Some c1 ∧
  mTokenMap w2 !! t2 = Some c2 ∧
  size (mTokenMap w2) = S (S (size (mTokenMap w))).
Proof.
  intros Hfirst Hsecond.
  apply registerToken_sound in Hfirst as (k1 & _ & [_ Hfree1] & Hh1 & Hw1).
  apply registerToken_sound in Hsecond as (k2 & _ & [_ Hfree2] & Hh2 & Hw2).
  cbn zeta in *. injection Hh1 as ->. injection Hh2 as ->.
  rewrite !token_of_fresh_handle.
  set (t1 := to_uint32 (mTokenEngine w k1)) in *.
  set (t2 := to_uint32 (mTokenEngine w1 k2)) in *.
  assert (Hm1 : mTokenMap w1 = <[t1 := c1]> (mTokenMap w)) by (by rewrite Hw1).
  assert (Hm2 : mTokenMap w2 = <[t2 := c2]> (mTokenMap w1)) by (by rewrite Hw2).
  clearbody t1 t2. clear Hw1 Hw2.
  rewrite Hm1 in Hfree2. rewrite Hm2, Hm1.
  assert (Hne : t1 ≠ t2).
  { intros Heq. rewrite <- Heq, lookup_insert_eq in Hfree2. done. }
  split_and!.
  - done.
  - rewrite lookup_insert_ne by done. apply lookup_insert_eq.
  - apply lookup_insert_eq.
  - rewrite !map_size_insert_None; done.
Qed.

Lemma registerToken_twice_distinct_witness :
  registerToken 1 1%positive world_alloc = Some (Some handle5, world_minted) ∧
  registerToken 2 1%positive world_minted
  = Some (Some handle6, world_two_tokens) ∧
  to_uint32 (data0 handle5) ≠ to_uint32 (data0 handle6) ∧
  mTokenMap world_two_tokens !! to_uint32 (data0 handle5) = Some 1%positive.
Proof.
  assert (Hmint1 : registerToken 1 1%positive world_alloc
                   = Some (Some handle5, world_minted)) by reflexivity.
  assert (Hmint2 : registerToken 2 1%positive world_minted
                   = Some (Some handle6, world_two_tokens)) by reflexivity.
  split; [exact Hmint1|]. split; [exact Hmint2|].
  pose proof (registerToken_twice_distinct 1 2 1%positive 1%positive
                world_alloc world_minted world_two_tokens handle5 handle6
                Hmint1 Hmint2) as (Hne & Hfirst & _).
  exact (conj Hne Hfirst).
Defined.

Lemma debug_lists_every_live_buffer_witness :
  debug fd_out 0 world_shared = Some (mkReport false [row_shared] []) ∧
  2%positive ∈ mClientSet world_shared ∧
  promote world_shared 2%positive = Some (mkClient 1%positive) ∧
  ∃ row, row ∈ activeBuffers (mkReport false [row_shared] []) ∧
         to_int32 (row_Id row)
         = to_int32 (node_id (nodeHeap world_shared
                                (mBufferNode (mkClient 1%positive)))).
Proof.
  assert (Hdebug : debug fd_out 0 world_shared
                   = Some (mkReport false [row_shared] []))
    by (vm_compute; reflexivity).
  assert (Hin : 2%positive ∈ mClientSet world_shared).
  { apply elem_of_elements. vm_compute. left. }
  assert (Hlive : promote world_shared 2%positive = Some (mkClient 1%positive))
    by (vm_compute; reflexivity).
  split; [exact Hdebug|]. split; [exact Hin|]. split; [exact Hlive|].
  exact (debug_lists_every_live_buffer fd_out 0 world_shared _ 2%positive
           (mkClient 1%positive) Hdebug Hin Hlive).
Defined.

(** ** debug: the Unused Tokens table *)

Lemma counted_tokens_nil w : counted_tokens w [] ∅.
Proof. intros k. simpl. by rewrite lookup_empty. Qed.

Lemma counted_tokens_step w seen acc p :
  counted_tokens w seen acc →
  counted_tokens w (seen ++ [p]) (count_token w acc p).
Proof.
  intros Hinv k. cbn zeta. rewrite filter_snoc.
  specialize (Hinv k). cbn zeta in Hinv.
  unfold count_token, client_key in *.
  destruct (promote w p) as [client|] eqn:Hclient.
  - set (k0 := buffer_key (nodeHeap w (mBufferNode client))) in *.
    destruct (decide (k0 = k)) as [Hk|Hk].
    + rewrite decide_True by (by rewrite Hk).
      rewrite length_app. simpl length.
      destruct (acc !! k0) as [n|] eqn:Hacc.
      * rewrite Hk in *. rewrite Hacc in Hinv. rewrite lookup_insert_eq.
        destruct Hinv as (Hpos & ->).
        split; [lia|]. rewrite to_uint32_succ. f_equal. lia.
      * rewrite emplace_fresh by done. rewrite Hk in *.
        rewrite Hacc in Hinv. rewrite lookup_insert_eq, Hinv.
        simpl. split; [lia|done].
    + rewrite decide_False by congruence. rewrite app_nil_r.
      destruct (acc !! k0) as [n|] eqn:Hacc.
      * by rewrite lookup_insert_ne.
      * rewrite emplace_fresh by done. by rewrite lookup_insert_ne.
  - rewrite decide_False by done. by rewrite app_nil_r.
Qed.

Lemma counted_tokens_foldl w l seen acc :
  counted_tokens w seen acc →
  counted_tokens w (seen ++ l) (foldl (count_token w) acc l).
Proof.
  revert seen acc. induction l as [|p l IH]; intros seen acc Hinv; simpl.
  - by rewrite app_nil_r.
  - rewrite cons_middle, app_assoc. apply IH. by apply counted_tokens_step.
Qed.

Lemma tokenCount_counted w :
  counted_tokens w ((map_to_list (mTokenMap w)).*2) (tokenCount w).
Proof. apply (counted_tokens_foldl w _ []), counted_tokens_nil. Qed.

Lemma elem_of_live_tokens w k p :
  p ∈ live_tokens w k ↔
  (∃ t, mTokenMap w !! t = Some p) ∧
  ∃ client, promote w p = Some client ∧
            buffer_key (nodeHeap w (mBufferNode client)) = k.
Proof.
  unfold live_tokens, client_key.
  rewrite list_elem_of_filter, list_elem_of_fmap.
  split.
  - intros [Hlive ([t p'] & -> & Hin%elem_of_map_to_list)].
    split; [by exists t|]. simpl in *.
    destruct (promote w p') as [client|]; [|done].
    exists client. split; [done|]. congruence.
  - intros [[t Ht] (client & -> & <-)]. split; [done|].
    exists (t, p). split; [done|]. by apply elem_of_map_to_list.
Qed.

Lemma length_live_tokens w k :
  (length (live_tokens w k) ≤ size (mTokenMap w))%nat.
Proof.
  unfold live_tokens.
  rewrite <- length_map_to_list, <- (length_fmap snd (map_to_list _)).
  apply length_filter.
Qed.

(** X14. The Unused Tokens table has a line for a buffer exactly when some
    token in the token map points to a client that is alive and holds that
    buffer, and the line shows how many tokens do; tokens whose client has
    expired are not counted.  (The count is a [uint32_t], exact while the
    token map has fewer than 2^32 entries.) *)
Theorem debug_unused_tokens_table
    (fd : hidl_handle) (nargs : nat) (w : World) (report : Report)
    (k n : Z) :
  Z.of_nat (size (mTokenMap w)) < 2 ^ 32 →
  debug fd nargs w = Some report →
  ((k, n) ∈ unusedTokens report ↔
   live_tokens w k ≠ [] ∧ n = Z.of_nat (length (live_tokens w k))) ∧
  (∀ p, p ∈ live_tokens w k ↔
        (∃ t, mTokenMap w !! t = Some p) ∧
        ∃ client, promote w p = Some client ∧
                  to_int32 (node_id (nodeHeap w (mBufferNode client))) = k).
Proof.
  intros Hsize Hdebug.
  assert (Hrows : unusedTokens report = in_key_order (tokenCount w)).
  { unfold debug in Hdebug. destruct fd as [h|]; [|done].
    case_decide; [done|]. by injection Hdebug as <-. }
  split; [|intros p; apply elem_of_live_tokens].
  rewrite Hrows, elem_of_in_key_order.
  pose proof (tokenCount_counted w k) as Hinv. cbn zeta in Hinv.
  fold (live_tokens w k) in Hinv.
  pose proof (length_live_tokens w k) as Hle.
  destruct (tokenCount w !! k) as [n'|] eqn:Hentry.
  - destruct Hinv as [Hpos Hn]. rewrite to_uint32_small in Hn by lia.
    split.
    + intros [= <-]. split; [|done].
      intros Hnil. rewrite Hnil in Hpos. simpl in Hpos. lia.
    + intros [_ ->]. by rewrite Hn.
  - split; [done|]. by intros [Hlive _].
Qed.

Lemma debug_unused_tokens_table_witness :
  Z.of_nat (size (mTokenMap world_minted)) < 2 ^ 32 ∧
  debug fd_out 0 world_minted
  = Some (mkReport false [mkRow 1 1 (Dimensions 64 64 1) 1 2 0 0] [(1, 1)]) ∧
  ((1, 1) ∈ [(1, 1)] ↔
   live_tokens world_minted 1 ≠ [] ∧
   1 = Z.of_nat (length (live_tokens world_minted 1))).
Proof.
  assert (Hsize : Z.of_nat (size (mTokenMap world_minted)) < 2 ^ 32)
    by (vm_compute; reflexivity).
  assert (Hdebug : debug fd_out 0 world_minted
            = Some (mkReport false [mkRow 1 1 (Dimensions 64 64 1) 1 2 0 0]
                             [(1, 1)]))
    by (vm_compute; reflexivity).
  split; [exact Hsize|]. split; [exact Hdebug|].
  exact (proj1 (debug_unused_tokens_table fd_out 0 world_minted _ 1 1
                  Hsize Hdebug)).
Defined.

(** ** debug: one row per buffer *)

#[local] Instance key_le_total {V} : Total (@key_le V).
Proof. intros a b. unfold key_le. lia. Qed.

#[local] Instance key_le_trans {V} : Transitive (@key_le V).
Proof. intros a b c. unfold key_le. lia. Qed.

Lemma strictly_ascending (l : list Z) :
  StronglySorted Z.le l → NoDup l → StronglySorted Z.lt l.
Proof.
  induction 1 as [|x l Hsorted IH Hall]; intros Hnodup; constructor.
  - apply IH. by apply NoDup_cons in Hnodup as [_ ?].
  - apply NoDup_cons in Hnodup as [Hx _].
    rewrite Forall_forall in Hall. apply Forall_forall. intros y Hy.
    assert (x ≠ y) by (by intros ->). specialize (Hall y Hy). lia.
Qed.

Lemma in_key_order_ascending {V} (m : gmap Z V) :
  StronglySorted Z.lt (in_key_order m).*1.
Proof.
  apply strictly_ascending.
  - apply (StronglySorted_fmap _ key_le); [done|].
    apply StronglySorted_merge_sort; apply _.
  - unfold in_key_order. rewrite merge_sort_Permutation.
    apply NoDup_fst_map_to_list.
Qed.

Lemma row_keys_active_buffers w :
  row_keys (active_buffers w) = (in_key_order (clientCount w)).*1.
Proof.
  unfold row_keys, active_buffers. rewrite <- list_fmap_compose.
  apply list_fmap_ext. intros i [k [first n]] Hentry. simpl.
  apply list_elem_of_lookup_2, elem_of_in_key_order in Hentry.
  pose proof (clientCount_counted w k) as Hinv. cbn zeta in Hinv.
  rewrite Hentry in Hinv. by destruct Hinv as [Hkey _].
Qed.

(** X16. The rows of the Active Buffers table come in strictly ascending
    order of the buffer key (the id as an [int]): no buffer has two rows. *)
Theorem debug_rows_ascending
    (fd : hidl_handle) (nargs : nat) (w : World) (report : Report) :
  debug fd nargs w = Some report →
  StronglySorted Z.lt (row_keys (activeBuffers report)) ∧
  NoDup (row_keys (activeBuffers report)).
Proof.
  intros Hdebug.
  assert (Hrows : activeBuffers report = active_buffers w).
  { unfold debug in Hdebug. destruct fd as [h|]; [|done].
    case_decide; [done|]. by injection Hdebug as <-. }
  rewrite Hrows, row_keys_active_buffers. split.
  - apply in_key_order_ascending.
  - unfold in_key_order. rewrite merge_sort_Permutation.
    apply NoDup_fst_map_to_list.
Qed.

Lemma debug_rows_ascending_witness :
  debug fd_out 0 world_two_buffers
  = Some (mkReport false rows_two_buffers []) ∧
  StronglySorted Z.lt
    (row_keys (activeBuffers (mkReport false rows_two_buffers []))).
Proof.
  assert (Hdebug : debug fd_out 0 world_two_buffers
                   = Some (mkReport false rows_two_buffers []))
    by (vm_compute; reflexivity).
  split; [exact Hdebug|].
  exact (proj1 (debug_rows_ascending fd_out 0 world_two_buffers _ Hdebug)).
Defined.

(** ** registerToken: when it returns, and what the token is then worth *)

(** X17. registerToken comes back within [fuel] draws exactly when one of
    the first [fuel] candidates of the engine is not a key of the token
    map; the engine has then been advanced past the candidate taken, one
    step per draw, and the clients and their registration are untouched. *)
Theorem registerToken_returns_iff
    (fuel : nat) (client : ptr) (w : World) :
  (is_Some (registerToken fuel client w) ↔
   ∃ k, (k < fuel)%nat ∧ first_free (mTokenMap w) (mTokenEngine w) k) ∧
  (∀ tokenHandle w1,
     registerToken fuel client w = Some (tokenHandle, w1) →
     ∃ k, (k < fuel)%nat ∧
          first_free (mTokenMap w) (mTokenEngine w) k ∧
          (∀ n, mTokenEngine w1 n = mTokenEngine w (S k + n)%nat) ∧
          mClientSet w1 = mClientSet w ∧
          clientHeap w1 = clientHeap w).
Proof.
  split.
  - split.
    + intros [[tokenHandle w1] Hreg].
      apply registerToken_sound in Hreg as (k & Hk & Hfree & _).
      by exists k.
    + intros (k & Hk & Hfree).
      rewrite (registerToken_at fuel client w k Hfree Hk). by eexists.
  - intros tokenHandle w1 Hreg.
    apply registerToken_sound in Hreg as (k & Hk & Hfree & _ & ->).
    exists k. by split_and!.
Qed.

(** The answer to a well-formed carrier whose token is in the map. *)
Lemma importBuffer_present_status addSlot h w p :
  wrong_format h = false →
  mTokenMap w !! to_uint32 (data0 h) = Some p →
  status (importBuffer addSlot (Some h) w).1
  = match promote w p with
    | None => BUFFER_FREED
    | Some origin =>
      if bool_decide
           ((addSlot (active_clients_bit_mask
                        (nodeHeap w (mBufferNode origin)))).1 = 0)
      then MAX_CLIENT else NO_ERROR
    end.
Proof.
  intros Hfmt Hp. simpl. rewrite Hfmt, Hp. unfold promote. simpl.
  destruct (clientHeap w !! p) as [origin|]; [|done].
  simpl. destruct (addSlot _) as [clientStateMask mask]. simpl.
  by case_bool_decide.
Qed.

(** X18. A token just minted for a client imports successfully exactly when
    that client can be promoted and the slot allocator returns a non-zero
    mask for its node. *)
Theorem mint_import_succeeds_iff
    (addSlot : Z → Z * Z) (fuel : nat) (client : ptr) (w w1 : World)
    (tokenHandle : hidl_handle) :
  registerToken fuel client w = Some (tokenHandle, w1) →
  (status (importBuffer addSlot tokenHandle w1).1 = NO_ERROR ↔
   ∃ origin,
     promote w client = Some origin ∧
     (addSlot (active_clients_bit_mask
                 (nodeHeap w (mBufferNode origin)))).1 ≠ 0).
Proof.
  intros (k & _ & _ & -> & ->)%registerToken_sound. cbn zeta.
  set (token := to_uint32 (mTokenEngine w k)).
  set (w1 := set_mTokenMap _ _).
  assert (Hlook : mTokenMap w1
                  !! to_uint32 (data0 (set_data0 (native_handle_create 0 1)
                                         token))
                  = Some client).
  { unfold token. rewrite token_of_fresh_handle. apply lookup_insert_eq. }
  rewrite (importBuffer_present_status addSlot _ w1 client) by done.
  change (promote w1 client) with (promote w client).
  change (nodeHeap w1) with (nodeHeap w).
  destruct (promote w client) as [origin|]; [|by split; [|intros (? & ? & _)]].
  case_bool_decide as Hzero.
  - split; [done|]. by intros (origin' & [= <-] & Hslot).
  - split; [|done]. intros _. by exists origin.
Qed.

Lemma mint_import_succeeds_iff_witness :
  registerToken 1 1%positive world_alloc = Some (token5, world_minted) ∧
  status (importBuffer addConsumerSlot token5 world_minted).1 = NO_ERROR.
Proof.
  assert (Hmint : registerToken 1 1%positive world_alloc
                  = Some (token5, world_minted)) by reflexivity.
  split; [exact Hmint|].
  apply (mint_import_succeeds_iff addConsumerSlot 1 1%positive world_alloc
           world_minted token5 Hmint).
  exists (mkClient 1%positive). split; vm_compute; [reflexivity|discriminate].
Defined.
